(** * EXtra-data: the file streamer ([extra_data/export.py]) and the
      dataset lister ([extra_data/h5index.py])

    A shallow embedding of the two modules, and the properties of them that
    the specification states.

    - [H5Index] embeds [hdf5_datasets]: the walk of [visititems] over the
      objects and links of a file, the visitor that collects one row per
      dataset it is handed, Python's [sorted] on those rows, and the rows
      handed to the CSV writer.
    - [Export_py] embeds [serve_files]: opening the path, the detector loop, and
      the pump over [data.trains()] with its in-place rewriting of the train
      dictionary.  Python dictionaries are objects in a store, so that the
      aliasing of [mod_data] with an entry of [train_data] is the code's. *)

From Stdlib Require Import ZArith Ascii String List Sorting.Sorted.
From stdpp Require Import base decidable option list sorting strings pretty gmap.

Local Open Scope string_scope.
Local Open Scope list_scope.
Set Warnings "-register-all,-clear-no-such-hyp".

(** String concatenation associates. *)
Lemma string_app_assoc (a b c : string) : (a +:+ b) +:+ c = a +:+ (b +:+ c).
Proof.
  induction a as [|x a IH]; [reflexivity|].
  change (String x ((a +:+ b) +:+ c) = String x (a +:+ (b +:+ c))).
  rewrite IH. reflexivity.
Qed.

(* ===================================================================== *)
(** * Lawful three-way comparisons

    Python compares [str], [tuple] and [list] values lexicographically.  The
    orders are built here from three-way comparisons that decide equality,
    are antisymmetric and transitive. *)
(* ===================================================================== *)

Module Cmp.

Record lawful {A : Type} (cmp : A -> A -> comparison) : Prop := {
  cmp_eq : forall x y, cmp x y = Eq <-> x = y;
  cmp_opp : forall x y, cmp y x = CompOpp (cmp x y);
  cmp_trans : forall x y z c, cmp x y = c -> cmp y z = c -> cmp x z = c
}.

(** Lexicographic combination: the first component decides unless equal. *)
Definition lex (c1 c2 : comparison) : comparison :=
  match c1 with Eq => c2 | _ => c1 end.

Definition pair_compare {A B : Type} (ca : A -> A -> comparison)
    (cb : B -> B -> comparison) (x y : A * B) : comparison :=
  lex (ca (fst x) (fst y)) (cb (snd x) (snd y)).

Definition ltb {A : Type} (cmp : A -> A -> comparison) (x y : A) : bool :=
  match cmp x y with Lt => true | _ => false end.

Lemma N_lawful : lawful N.compare.
Proof.
  split.
  - intros x y. apply N.compare_eq_iff.
  - intros x y. rewrite (N.compare_antisym x y). reflexivity.
  - intros x y z c Hxy Hyz. destruct c.
    + apply N.compare_eq_iff in Hxy, Hyz. subst. apply N.compare_refl.
    + rewrite N.compare_lt_iff in *. lia.
    + rewrite N.compare_gt_iff in *. lia.
Qed.

Lemma ascii_lawful : lawful Ascii.compare.
Proof.
  split.
  - intros x y. split.
    + apply Ascii.compare_eq_iff.
    + intros ->. unfold Ascii.compare. apply N.compare_refl.
  - intros x y. rewrite (Ascii.compare_antisym y x).
    destruct (Ascii.compare x y); reflexivity.
  - intros x y z c. unfold Ascii.compare. apply (cmp_trans _ N_lawful).
Qed.

Lemma list_lawful {A : Type} (cmp : A -> A -> comparison) :
  lawful cmp -> lawful (list_compare cmp).
Proof.
  intros [He Ho Ht]. split.
  - intros x y. apply list_compare_refl. exact He.
  - intros x y. apply list_compare_antisym; assumption.
  - intros x y z c. apply list_compare_trans; assumption.
Qed.

Lemma pair_lawful {A B : Type} (ca : A -> A -> comparison)
    (cb : B -> B -> comparison) :
  lawful ca -> lawful cb -> lawful (pair_compare ca cb).
Proof.
  intros [Hae Hao Hat] [Hbe Hbo Hbt]. split.
  - intros [a b] [a' b']. unfold pair_compare, lex. simpl.
    destruct (ca a a') eqn:E.
    + apply Hae in E. subst a'. rewrite Hbe. split; [intros ->; reflexivity|].
      intros [= ->]. reflexivity.
    + split; [discriminate|]. intros [= -> ->].
      rewrite (proj2 (Hae a' a') eq_refl) in E. discriminate.
    + split; [discriminate|]. intros [= -> ->].
      rewrite (proj2 (Hae a' a') eq_refl) in E. discriminate.
  - intros [a b] [a' b']. unfold pair_compare, lex. simpl.
    rewrite (Hao a a'), (Hbo b b'). destruct (ca a a'); reflexivity.
  - intros [a b] [a' b'] [a'' b''] c. unfold pair_compare, lex. simpl.
    destruct (ca a a') eqn:E1; destruct (ca a' a'') eqn:E2;
      try (apply Hae in E1; subst a'); try (apply Hae in E2; subst a'');
      try rewrite (proj2 (Hae a a) eq_refl);
      try rewrite E1; try rewrite E2;
      try (intros <-; intros; congruence);
      try (intros ? <-; congruence).
    + apply Hbt.
    + rewrite (Hat _ _ _ _ E1 E2). congruence.
    + rewrite (Hat _ _ _ _ E1 E2). congruence.
Qed.

Lemma map_lawful {A B : Type} (f : A -> B) (cmp : B -> B -> comparison) :
  (forall x y, f x = f y -> x = y) -> lawful cmp ->
  lawful (fun x y => cmp (f x) (f y)).
Proof.
  intros Hinj [He Ho Ht]. split.
  - intros x y. rewrite He. split; [apply Hinj | intros ->; reflexivity].
  - intros x y. apply Ho.
  - intros x y z c. apply Ht.
Qed.

Section Order.
Context {A : Type} (cmp : A -> A -> comparison) (L : lawful cmp).

(** [x <= y] as Python's [not (y < x)]. *)
Definition le (x y : A) : Prop := ltb cmp y x = false.

Lemma le_refl x : le x x.
Proof. unfold le, ltb. rewrite (proj2 (cmp_eq _ L x x) eq_refl). reflexivity. Qed.

Lemma le_total x y : le x y \/ le y x.
Proof.
  unfold le, ltb. rewrite (cmp_opp _ L x y).
  destruct (cmp x y); simpl; auto.
Qed.

Lemma le_antisym x y : le x y -> le y x -> x = y.
Proof.
  unfold le, ltb. rewrite (cmp_opp _ L x y).
  destruct (cmp x y) eqn:E; simpl; try discriminate.
  intros _ _. apply (cmp_eq _ L). exact E.
Qed.

Lemma le_trans x y z : le x y -> le y z -> le x z.
Proof.
  unfold le, ltb. intros Hxy Hyz.
  destruct (cmp z x) eqn:Ezx; try reflexivity. exfalso.
  destruct (cmp y x) eqn:Eyx; try discriminate.
  - apply (cmp_eq _ L) in Eyx. subst y. rewrite Ezx in Hyz. discriminate.
  - destruct (cmp z y) eqn:Ezy; try discriminate.
    + apply (cmp_eq _ L) in Ezy. subst z. rewrite Eyx in Ezx. discriminate.
    + rewrite (cmp_trans _ L _ _ _ _ Ezy Eyx) in Ezx. discriminate.
Qed.
End Order.

End Cmp.

(* ===================================================================== *)
(** * Python's [sorted]

    [sorted] is a stable sort that only asks [x < y].  A stable insertion
    sort returns the same list: each element is put in front of the first
    element it is strictly smaller than, so equal elements keep their
    order. *)
(* ===================================================================== *)

Module PySort.

Section Sorted.
Context {A : Type} (cmp : A -> A -> comparison).

Fixpoint insert (x : A) (l : list A) : list A :=
  match l with
  | [] => [x]
  | y :: l' => if Cmp.ltb cmp x y then x :: y :: l' else y :: insert x l'
  end.

Definition sorted (l : list A) : list A :=
  fold_left (fun acc x => insert x acc) l [].

Lemma insert_perm x l : insert x l ≡ₚ x :: l.
Proof.
  induction l as [|y l IH]; simpl; [reflexivity|].
  destruct (Cmp.ltb cmp x y); [reflexivity|].
  rewrite IH. apply Permutation_swap.
Qed.

Lemma fold_insert_perm l acc :
  fold_left (fun acc x => insert x acc) l acc ≡ₚ acc ++ l.
Proof.
  revert acc. induction l as [|x l IH]; intros acc; simpl.
  - rewrite app_nil_r. reflexivity.
  - rewrite IH, insert_perm. rewrite (Permutation_middle acc l x). reflexivity.
Qed.

Lemma sorted_perm l : sorted l ≡ₚ l.
Proof. unfold sorted. rewrite fold_insert_perm. reflexivity. Qed.

(** Sortedness needs the comparison to be antisymmetric only, so it holds
    for a comparison of keys as well. *)
Hypothesis Hopp : forall x y, cmp y x = CompOpp (cmp x y).

Lemma insert_hdrel a x l :
  Cmp.le cmp a x -> HdRel (Cmp.le cmp) a l -> HdRel (Cmp.le cmp) a (insert x l).
Proof.
  intros Hax Hl. destruct l as [|y l]; simpl.
  - constructor. exact Hax.
  - destruct (Cmp.ltb cmp x y); constructor; [exact Hax|].
    inversion Hl; assumption.
Qed.

Lemma insert_sorted x l :
  Sorted (Cmp.le cmp) l -> Sorted (Cmp.le cmp) (insert x l).
Proof.
  induction 1 as [|y l Hs IH Hhd]; simpl.
  - repeat constructor.
  - destruct (Cmp.ltb cmp x y) eqn:E.
    + constructor; [constructor; assumption|]. constructor.
      unfold Cmp.le, Cmp.ltb in *. rewrite (Hopp x y).
      destruct (cmp x y); simpl; congruence.
    + constructor; [exact IH|]. apply insert_hdrel; [exact E | exact Hhd].
Qed.

Lemma sorted_Sorted l : Sorted (Cmp.le cmp) (sorted l).
Proof.
  unfold sorted. generalize (Sorted_nil (Cmp.le cmp)).
  generalize (@nil A) as acc. induction l as [|x l IH]; intros acc Hacc; simpl.
  - exact Hacc.
  - apply IH. apply insert_sorted. exact Hacc.
Qed.
End Sorted.

Section Unique.
Context {A : Type} (cmp : A -> A -> comparison).
Hypothesis L : Cmp.lawful cmp.

#[local] Instance le_transitive : Transitive (Cmp.le cmp).
Proof. intros x y z. apply Cmp.le_trans. exact L. Qed.

#[local] Instance le_antisymm : AntiSymm (=) (Cmp.le cmp).
Proof. intros x y. apply Cmp.le_antisym. exact L. Qed.

(** The result depends on the elements only, not on their order. *)
Lemma sorted_order_irrelevant l1 l2 : l1 ≡ₚ l2 -> sorted cmp l1 = sorted cmp l2.
Proof.
  intros HP. apply (Sorted_unique (Cmp.le cmp)).
  - apply sorted_Sorted. apply (Cmp.cmp_opp _ L).
  - apply sorted_Sorted. apply (Cmp.cmp_opp _ L).
  - rewrite !sorted_perm. exact HP.
Qed.
End Unique.

End PySort.

(* ===================================================================== *)
(** * [extra_data/h5index.py] *)
(* ===================================================================== *)

Module H5Index.

(** ** The file

    An HDF5 file as [h5py] reads it: objects at addresses, and in every
    group the links to its members, by name.  Address 0 is the root group.
    A hard link holds the address of an object; a soft, an external or a
    user-defined link holds a path, which [visititems] does not follow. *)
Inductive link : Type :=
  | Hard (target : nat)
  | Symbolic.

Inductive h5object : Type :=
  | Dataset (shape : list N) (dtype_str : string)
  | Group (links : list (string * link))
  | NamedDatatype.

Abbreviation file := (list h5object).

#[global] Instance link_eq_dec : EqDecision link.
Proof. solve_decision. Defined.

Definition links_of (obj : h5object) : list (string * link) :=
  match obj with
  | Group links => links
  | _ => []
  end.

(** The link count of the object at [a], as its object header has it: the
    hard links to it in the groups of the file, and for the root group one
    more, which the file holds. *)
Definition hits (a : nat) (obj : h5object) : nat :=
  length (filter (fun l => snd l = Hard a) (links_of obj)).

Definition link_count (f : file) (a : nat) : nat :=
  (if bool_decide (a = 0) then 1 else 0) + list_sum (map (hits a) f).

(** The links of a group in the order of the name index, increasing, which
    is the order [h5py] asks for. *)
Definition by_name (l1 l2 : string * link) : comparison :=
  String.compare (fst l1) (fst l2).

Definition name_index (links : list (string * link)) : list (string * link) :=
  PySort.sorted by_name links.

(** ** [grp.visititems(visitor)]

    [Group.visititems] is the library's: [h5py] calls HDF5's [H5Ovisit], a
    walk, depth first, over the links of the group in the order of the name
    index.  For a hard link to an object
    that is not in the list of the objects seen, the visitor is called with
    the path from the group and the object, the object is entered in the
    list if its link count is above one (it can come up again), and if it is
    a group the walk goes on below it before it takes the next link.  The
    group the walk starts from is not handed to the visitor; it is in the
    list from the start if its link count is above one.  Other links are
    passed over.

    [fuel] bounds the nesting of the groups. *)
Abbreviation visit := (string * nat * h5object)%type.

Definition addr_of (v : visit) : nat := snd (fst v).

Section Links.
Variable f : file.
Variable enter :
  string -> list (string * link) -> list nat -> option (list visit * list nat).

Fixpoint each_link (prefix : string) (links : list (string * link))
    (seen : list nat) : option (list visit * list nat) :=
  match links with
  | [] => Some ([], seen)
  | (name, Symbolic) :: links' => each_link prefix links' seen
  | (name, Hard a) :: links' =>
      match f !! a with
      | None => each_link prefix links' seen
      | Some obj =>
          if bool_decide (a ∈ seen) then each_link prefix links' seen
          else
            let path := prefix +:+ name in
            let seen1 := if Nat.ltb 1 (link_count f a) then a :: seen else seen in
            below ← match obj with
                    | Group sub => enter (path +:+ "/") (name_index sub) seen1
                    | _ => Some ([], seen1)
                    end;
            rest ← each_link prefix links' (snd below);
            Some ((path, a, obj) :: fst below ++ fst rest, snd rest)
      end
  end.
End Links.

Fixpoint walk (f : file) (fuel : nat) (prefix : string)
    (links : list (string * link)) (seen : list nat)
    : option (list visit * list nat) :=
  match fuel with
  | 0 => None
  | S fuel' => each_link f (walk f fuel') prefix links seen
  end.

(** The visits of [grp.visititems], in order; [None] when [grp] is not a
    group of the file, or when the fuel does not reach. *)
Definition walked (f : file) (grp : nat) : option (list visit) :=
  match f !! grp with
  | Some (Group links) =>
      let seen := if Nat.ltb 1 (link_count f grp) then [grp] else [] in
      fst <$> walk f (S (2 * length f)) "" (name_index links) seen
  | _ => None
  end.

(** What the visitor is called with: the path and [grp[path]]. *)
Definition handed (v : visit) : string * h5object := (fst (fst v), snd v).

Definition visititems (f : file) (grp : nat) : option (list (string * h5object)) :=
  map handed <$> walked f grp.

(** One entry of [all_datasets]: [[path, item.shape, item.dtype.str]]. *)
Definition row : Type := string * (list N * string).

(** The closure [visitor(path, item)], with [all_datasets] passed along. *)
Definition visitor (all_datasets : list row) (path : string) (item : h5object)
    : list row :=
  match item with
  | Dataset shape dtype_str => all_datasets ++ [(path, (shape, dtype_str))]
  | _ => all_datasets
  end.

(** Python compares the rows as lists: the paths as [str], then the shapes as
    tuples, then the dtype strings.  Strings are byte strings here; the order
    of UTF-8 bytes is the order of code points. *)
Definition row_compare : row -> row -> comparison :=
  Cmp.pair_compare String.compare
    (Cmp.pair_compare (list_compare N.compare) String.compare).

(** [str(shape)] of a tuple of integers. *)
Definition str_tuple (t : list N) : string :=
  match t with
  | [] => "()"
  | [n] => "(" +:+ pretty n +:+ ",)"
  | n :: t' =>
      "(" +:+ pretty n +:+ fold_right (fun m s => ", " +:+ pretty m +:+ s) ")" t'
  end.

(** The fields [csv.writer] is given for a row, each through [str]. *)
Definition csv_fields (r : row) : list string :=
  [fst r; str_tuple (fst (snd r)); snd (snd r)].

Definition header : list string := ["path"; "shape"; "dtype"].

(** The body of [hdf5_datasets] after the visit order is fixed: the rows
    written to [sys.stdout], one list of fields per [writerow]. *)
Definition hdf5_datasets_visited (visits : list (string * h5object))
    : list (list string) :=
  let all_datasets :=
    fold_left (fun acc v => visitor acc (fst v) (snd v)) visits [] in
  header :: map csv_fields (PySort.sorted row_compare all_datasets).

Definition hdf5_datasets (f : file) (grp : nat) : option (list (list string)) :=
  hdf5_datasets_visited <$> visititems f grp.

(** The datasets among visited objects, as rows. *)
Definition dataset_rows (visits : list (string * h5object)) : list row :=
  omap (fun v => match snd v with
                 | Dataset shape dtype_str => Some (fst v, (shape, dtype_str))
                 | _ => None
                 end) visits.

(** ** Paths

    [member f g name a]: the group at [g] has the hard link [name] to the
    object at [a].  [resolves f g path a]: [path] leads from the group at
    [g] to the object at [a] through hard links. *)
Definition member (f : file) (g : nat) (name : string) (a : nat) : Prop :=
  exists links,
    f !! g = Some (Group links) ∧ (name, Hard a) ∈ links ∧ is_Some (f !! a).

Definition child (f : file) (g a : nat) : Prop := exists name, member f g name a.

Inductive resolves (f : file) : nat -> string -> nat -> Prop :=
  | resolves_member g name a :
      member f g name a -> resolves f g name a
  | resolves_below g name b rest a :
      member f g name b -> resolves f b rest a ->
      resolves f g (name +:+ "/" +:+ rest) a.

Definition below (f : file) (g a : nat) : Prop := exists path, resolves f g path a.

(** No hard link of the file leads to the object at [a]. *)
Definition unlinked (f : file) (a : nat) : bool :=
  forallb (fun obj => Nat.eqb (hits a obj) 0) f.

(** ** Properties of the rows *)

Lemma string_compare_as_list s1 s2 :
  String.compare s1 s2 =
  list_compare Ascii.compare (list_ascii_of_string s1) (list_ascii_of_string s2).
Proof.
  revert s2. induction s1 as [|a s1 IH]; intros [|b s2]; simpl; try reflexivity.
  rewrite IH. reflexivity.
Qed.

Lemma string_lawful : Cmp.lawful String.compare.
Proof.
  pose proof (Cmp.map_lawful list_ascii_of_string _
                (fun x y H => eq_trans (eq_sym (string_of_list_ascii_of_string x))
                   (eq_trans (f_equal string_of_list_ascii H)
                      (string_of_list_ascii_of_string y)))
                (Cmp.list_lawful _ Cmp.ascii_lawful)) as [He Ho Ht].
  split.
  - intros x y. rewrite string_compare_as_list. apply He.
  - intros x y. rewrite !string_compare_as_list. apply Ho.
  - intros x y z c. rewrite !string_compare_as_list. apply Ht.
Qed.

Lemma row_lawful : Cmp.lawful row_compare.
Proof.
  unfold row_compare. repeat apply Cmp.pair_lawful;
    auto using string_lawful, Cmp.list_lawful, Cmp.N_lawful.
Qed.

Lemma visitor_collects visits acc :
  fold_left (fun acc v => visitor acc (fst v) (snd v)) visits acc
  = acc ++ dataset_rows visits.
Proof.
  revert acc. induction visits as [|[path item] visits IH]; intros acc; simpl.
  - symmetry. apply app_nil_r.
  - rewrite IH. destruct item; simpl; try reflexivity.
    rewrite <- app_assoc. reflexivity.
Qed.

Lemma dataset_rows_perm v1 v2 : v1 ≡ₚ v2 -> dataset_rows v1 ≡ₚ dataset_rows v2.
Proof. intros H. unfold dataset_rows. rewrite H. reflexivity. Qed.

(** A row that is not smaller in the row order has a path that is not
    smaller: the path is compared first. *)
Lemma row_le_path (r1 r2 : row) :
  Cmp.le row_compare r1 r2 -> Cmp.le String.compare (fst r1) (fst r2).
Proof.
  unfold Cmp.le, Cmp.ltb, row_compare, Cmp.pair_compare, Cmp.lex.
  destruct (String.compare (fst r2) (fst r1)); congruence.
Qed.

(** ** Link counts *)

Lemma name_index_perm links : name_index links ≡ₚ links.
Proof. apply PySort.sorted_perm. Qed.

Lemma elem_of_name_index l links : l ∈ name_index links <-> l ∈ links.
Proof. rewrite name_index_perm. reflexivity. Qed.

Lemma sum_one (a : nat) (f : file) i x :
  f !! i = Some x -> hits a x <= list_sum (map (hits a) f).
Proof.
  revert i. induction f as [|y f IH]; intros [|i] H; try discriminate.
  - injection H as ->. cbn [map list_sum]. apply Nat.le_add_r.
  - cbn [map list_sum]. specialize (IH i H).
    etransitivity; [exact IH | apply Nat.le_add_l].
Qed.

Lemma sum_two (a : nat) (f : file) i j x y :
  f !! i = Some x -> f !! j = Some y -> i ≠ j ->
  hits a x + hits a y <= list_sum (map (hits a) f).
Proof.
  revert i j. induction f as [|z f IH]; intros [|i] [|j] Hi Hj Hne;
    try discriminate; try contradiction.
  - injection Hi as ->. cbn [map list_sum].
    apply Nat.add_le_mono_l, (sum_one a f j y Hj).
  - injection Hj as ->. cbn [map list_sum]. rewrite Nat.add_comm.
    apply Nat.add_le_mono_l, (sum_one a f i x Hi).
  - cbn [map list_sum]. assert (i ≠ j) as Hne' by congruence.
    etransitivity; [exact (IH i j Hi Hj Hne') | apply Nat.le_add_l].
Qed.

Lemma hits_pos a links name :
  (name, Hard a) ∈ links -> 1 <= hits a (Group links).
Proof.
  intros Hin. unfold hits. cbn [links_of].
  assert ((name, Hard a) ∈ filter (fun l : string * link => snd l = Hard a) links)
    as Hf by (apply list_elem_of_filter; split; [reflexivity | exact Hin]).
  destruct (filter _ links); [apply elem_of_nil in Hf; contradiction | cbn; lia].
Qed.

Lemma link_count_ge f a g obj : f !! g = Some obj -> hits a obj <= link_count f a.
Proof.
  intros H. unfold link_count.
  etransitivity; [exact (sum_one a f g obj H) | apply Nat.le_add_l].
Qed.

(** An object with links from two groups has a link count of two at least. *)
Lemma two_parents f g1 g2 a :
  child f g1 a -> child f g2 a -> g1 ≠ g2 -> 2 <= link_count f a.
Proof.
  intros (n1 & l1 & H1 & Hin1 & _) (n2 & l2 & H2 & Hin2 & _) Hne.
  pose proof (sum_two a f g1 g2 _ _ H1 H2 Hne) as Hsum.
  pose proof (hits_pos a l1 n1 Hin1). pose proof (hits_pos a l2 n2 Hin2).
  unfold link_count. lia.
Qed.

(** So has an object with two links from one group. *)
Lemma two_links f g raw done name1 name2 links a :
  f !! g = Some (Group raw) ->
  raw ≡ₚ done ++ (name1, Hard a) :: links ->
  (name2, Hard a) ∈ links ->
  2 <= link_count f a.
Proof.
  intros Hg Hperm Hin.
  pose proof (link_count_ge f a g _ Hg) as Hle.
  assert (2 <= hits a (Group raw)) as H2; [|lia].
  unfold hits. cbn [links_of]. rewrite Hperm, filter_app, length_app.
  rewrite filter_cons_True by reflexivity. cbn [length].
  assert ((name2, Hard a) ∈ filter (fun l : string * link => snd l = Hard a) links)
    as Hf by (apply list_elem_of_filter; split; [reflexivity | exact Hin]).
  destruct (filter _ links); [apply elem_of_nil in Hf; contradiction | cbn; lia].
Qed.

Lemma unlinked_hits f a g obj :
  unlinked f a = true -> f !! g = Some obj -> hits a obj = 0.
Proof.
  unfold unlinked. rewrite forallb_forall. intros Hall Hg.
  apply Nat.eqb_eq, Hall. apply list_elem_of_In. eapply list_elem_of_lookup_2.
  exact Hg.
Qed.

(** ** Paths *)

Lemma member_valid f g name a : member f g name a -> is_Some (f !! a).
Proof. intros (links & _ & _ & H). exact H. Qed.

Lemma resolves_valid f g path a : resolves f g path a -> is_Some (f !! a).
Proof. induction 1 as [g name a H|]; [exact (member_valid _ _ _ _ H) | assumption]. Qed.

Lemma resolves_snoc f g path b name a :
  resolves f g path b -> member f b name a ->
  resolves f g (path +:+ "/" +:+ name) a.
Proof.
  intros Hres Hm. induction Hres as [g n b Hgb|g n c rest b Hgc Hres IH].
  - apply resolves_below with b; [exact Hgb | apply resolves_member, Hm].
  - rewrite string_app_assoc.
    change (("/" +:+ rest) +:+ "/" +:+ name) with ("/" +:+ (rest +:+ "/" +:+ name)).
    apply resolves_below with c; [exact Hgc | exact (IH Hm)].
Qed.

Lemma below_child f g b a : g = b ∨ below f g b -> child f b a -> below f g a.
Proof.
  intros [<-|[path Hres]] [name Hm].
  - exists name. apply resolves_member, Hm.
  - eexists. eapply resolves_snoc; eassumption.
Qed.

Lemma resolves_last f g path a : resolves f g path a -> exists b, child f b a.
Proof.
  induction 1 as [g name a H|]; [exists g, name; exact H | assumption].
Qed.

Lemma unlinked_not_below f g a : unlinked f a = true -> ¬ below f g a.
Proof.
  intros Hun [path Hres].
  apply resolves_last in Hres as (b & name & links & Hb & Hin & _).
  pose proof (unlinked_hits f a b _ Hun Hb) as H0.
  pose proof (hits_pos a links name Hin). lia.
Qed.

(** ** The walk

    The walk from the group at [start], a group that has several links or is
    not below itself.  [G] is the set of the objects handed to the visitor so
    far.  The list of the objects seen holds those of them, and [start], that
    have several links; an object with one link is reached once, through that
    link. *)
Section Walk.
Variable f : file.
Variable start : nat.
Variable start_links : list (string * link).
Hypothesis Hstart : f !! start = Some (Group start_links).
Hypothesis Hstart_ok : 1 < link_count f start ∨ ¬ below f start start.

Definition Inv (G : gset nat) (seen : list nat) : Prop :=
  (start ∉ G)
  ∧ (forall a, a ∈ seen <-> (a ∈ G ∨ a = start) ∧ 1 < link_count f a)
  ∧ (forall c, c ∈ G -> below f start c)
  ∧ (forall c, c ∈ G -> exists Q, (Q ∈ G ∨ Q = start) ∧ child f Q c).

Definition Pre (n : nat) (P : nat) (links : list (string * link))
    (G : gset nat) (seen : list nat) : Prop :=
  Inv G seen
  ∧ (P ∈ G ∨ P = start)
  ∧ (exists raw done, f !! P = Some (Group raw) ∧ raw ≡ₚ done ++ links)
  ∧ (forall name b, (name, Hard b) ∈ links -> link_count f b <= 1 -> b ∉ G)
  ∧ length f < size G + n.

Definition Post (P : nat) (prefix : string) (links : list (string * link))
    (G : gset nat) (out : list visit) (seen' : list nat) : Prop :=
  Inv (G ∪ list_to_set (map addr_of out)) seen'
  ∧ NoDup (map addr_of out)
  ∧ (forall a, a ∈ map addr_of out -> a ∉ G)
  ∧ (forall path a obj, (path, a, obj) ∈ out ->
       f !! a = Some obj
       ∧ exists rel, path = prefix +:+ rel ∧ resolves f P rel a)
  ∧ (forall c, c ∈ map addr_of out ->
       exists Q, (Q = P ∨ Q ∈ map addr_of out) ∧ child f Q c)
  ∧ (forall name b, (name, Hard b) ∈ links -> is_Some (f !! b) ->
       b ∈ G ∪ list_to_set (map addr_of out) ∨ b = start)
  ∧ (forall c b, c ∈ map addr_of out -> child f c b ->
       b ∈ G ∪ list_to_set (map addr_of out) ∨ b = start).

Lemma Inv_valid G seen c : Inv G seen -> c ∈ G -> c < length f.
Proof.
  intros (_ & _ & HR & _) Hc. destruct (HR c Hc) as [path Hres].
  destruct (resolves_valid _ _ _ _ Hres) as [obj Hobj].
  exact (lookup_lt_Some _ _ _ Hobj).
Qed.

Lemma Inv_size G seen : Inv G seen -> size G < length f.
Proof.
  intros HI.
  assert (start < length f) as Hlt by exact (lookup_lt_Some _ _ _ Hstart).
  assert (G ⊆ list_to_set (seq 0 (length f)) ∖ {[start]}) as Hsub.
  { intros c Hc. apply elem_of_difference. split.
    - apply elem_of_list_to_set, elem_of_seq.
      pose proof (Inv_valid G seen c HI Hc). lia.
    - intros Hs. apply elem_of_singleton in Hs. subst c.
      destruct HI as (Hns & _). contradiction. }
  apply subseteq_size in Hsub.
  rewrite size_difference in Hsub.
  2:{ intros c Hc. apply elem_of_singleton in Hc. subst c.
      apply elem_of_list_to_set, elem_of_seq. lia. }
  rewrite size_list_to_set in Hsub by apply NoDup_seq.
  rewrite length_seq, size_singleton in Hsub. lia.
Qed.

Lemma Post_nil P prefix G seen :
  Inv G seen -> Post P prefix [] G [] seen.
Proof.
  intros HI. unfold Post. cbn [map].
  rewrite list_to_set_nil, (right_id_L ∅ (∪)).
  split; [exact HI|]. split; [constructor|].
  split; [intros a Ha; apply elem_of_nil in Ha; contradiction|].
  split; [intros path a obj Ha; apply elem_of_nil in Ha; contradiction|].
  split; [intros c Hc; apply elem_of_nil in Hc; contradiction|].
  split; [intros name b Hb; apply elem_of_nil in Hb; contradiction|].
  intros c b Hc. apply elem_of_nil in Hc. contradiction.
Qed.

Lemma Pre_tail n P l links G seen :
  Pre n P (l :: links) G seen -> Pre n P links G seen.
Proof.
  intros (HI & HP & (raw & done & Hraw & Hperm) & Hfresh & Hfuel).
  split; [exact HI|]. split; [exact HP|]. split; [|split; [|exact Hfuel]].
  - exists raw, (done ++ [l]). split; [exact Hraw|].
    rewrite <- app_assoc. exact Hperm.
  - intros name b Hin. apply (Hfresh name). right. exact Hin.
Qed.

Lemma Post_skip P prefix l links G out seen' :
  (forall b, snd l = Hard b -> is_Some (f !! b) -> b ∈ G ∨ b = start) ->
  Post P prefix links G out seen' -> Post P prefix (l :: links) G out seen'.
Proof.
  intros Hl (HI & Hnd & Hnew & Hpath & HJ & Hlinks & Hcl).
  split; [exact HI|]. split; [exact Hnd|]. split; [exact Hnew|].
  split; [exact Hpath|]. split; [exact HJ|]. split; [|exact Hcl].
  intros name b Hin Hb. apply elem_of_cons in Hin as [<-|Hin].
  - destruct (Hl b eq_refl Hb) as [H|H]; [left; set_solver | right; exact H].
  - exact (Hlinks name b Hin Hb).
Qed.

(** The group at hand is [start] or below it. *)
Lemma at_hand_below G seen P a :
  Inv G seen -> P ∈ G ∨ P = start -> child f P a -> below f start a.
Proof.
  intros (_ & _ & HR & _) HP Hch. apply (below_child f start P a); [|exact Hch].
  destruct HP as [HP| ->]; [right; exact (HR P HP) | left; reflexivity].
Qed.

(** An object that is handed to the visitor has not been handed before and
    is not [start]. *)
Lemma visit_is_new n P name a links G seen obj :
  Pre n P ((name, Hard a) :: links) G seen ->
  f !! a = Some obj -> a ∉ seen ->
  member f P name a ∧ (a ∉ G) ∧ a ≠ start.
Proof.
  intros (HI & HP & (raw & done & Hraw & Hperm) & Hfresh & _) Ha Hns.
  assert (member f P name a) as Hm.
  { exists raw. split; [exact Hraw|]. split; [|eauto].
    rewrite Hperm. apply elem_of_app. right. left. }
  split; [exact Hm|].
  destruct (decide (1 < link_count f a)) as [Hrc|Hrc].
  - destruct HI as (_ & Hseen & _).
    split.
    + intros HG. apply Hns, Hseen. auto.
    + intros ->. apply Hns, Hseen. auto.
  - split; [apply (Hfresh name a); [left | lia]|].
    intros ->. destruct Hstart_ok as [H|H]; [contradiction|].
    apply H. apply (at_hand_below G seen P start HI HP). exists name. exact Hm.
Qed.

Lemma Inv_visit G seen P a :
  Inv G seen -> P ∈ G ∨ P = start -> child f P a -> a ∉ G -> a ≠ start ->
  Inv ({[a]} ∪ G) (if Nat.ltb 1 (link_count f a) then a :: seen else seen).
Proof.
  intros HI HP Hch HaG Has.
  pose proof (at_hand_below G seen P a HI HP Hch) as Hbelow.
  destruct HI as (Hns & Hseen & HR & HJ).
  split; [set_solver|]. split; [|split].
  - intros c. destruct (Nat.ltb_spec 1 (link_count f a)) as [Hrc|Hrc].
    + rewrite elem_of_cons, Hseen. split.
      * intros [->|[[H|H] Hc]]; (split; [set_solver | assumption]).
      * intros [[H|H] Hc]; [|auto].
        apply elem_of_union in H as [H|H]; [|auto].
        apply elem_of_singleton in H. auto.
    + rewrite Hseen. split.
      * intros [[H|H] Hc]; (split; [set_solver | assumption]).
      * intros [[H|H] Hc]; [|auto].
        apply elem_of_union in H as [H|H]; [|auto].
        apply elem_of_singleton in H. subst c. lia.
  - intros c Hc. apply elem_of_union in Hc as [Hc|Hc]; [|auto].
    apply elem_of_singleton in Hc. subst c. exact Hbelow.
  - intros c Hc. apply elem_of_union in Hc as [Hc|Hc].
    + apply elem_of_singleton in Hc. subst c. exists P.
      split; [|exact Hch]. destruct HP; [left; set_solver | right; assumption].
    + destruct (HJ c Hc) as (Q & HQ & HQc). exists Q.
      split; [|exact HQc]. destruct HQ; [left; set_solver | right; assumption].
Qed.

(** Going below a group that was just handed to the visitor. *)
Lemma Pre_enter n P name a links G seen sub :
  Pre (S n) P ((name, Hard a) :: links) G seen ->
  f !! a = Some (Group sub) -> a ∉ seen ->
  Pre n a (name_index sub) ({[a]} ∪ G)
    (if Nat.ltb 1 (link_count f a) then a :: seen else seen).
Proof.
  intros HPre Ha Hns.
  destruct (visit_is_new _ _ _ _ _ _ _ _ HPre Ha Hns) as (Hm & HaG & Has).
  destruct HPre as (HI & HP & _ & _ & Hfuel).
  assert (child f P a) as Hch by (exists name; exact Hm).
  split; [exact (Inv_visit G seen P a HI HP Hch HaG Has)|].
  split; [left; set_solver|]. split; [|split].
  - exists sub, []. split; [exact Ha|]. cbn [app]. symmetry. apply name_index_perm.
  - intros name' b Hin Hrc Hb. apply (proj1 (elem_of_name_index _ _)) in Hin.
    assert (P ≠ a) as HPa by (destruct HP; congruence).
    apply elem_of_union in Hb as [Hb|Hb].
    + apply elem_of_singleton in Hb. subst b.
      assert (child f a a) as Haa.
      { exists name', sub. split; [exact Ha|]. split; [exact Hin|].
        exists (Group sub). exact Ha. }
      pose proof (two_parents f P a a Hch Haa HPa). lia.
    + destruct HI as (_ & _ & HR & HJ).
      destruct (HJ b Hb) as (Q & HQ & HQb).
      assert (child f a b) as Hab.
      { exists name', sub. split; [exact Ha|]. split; [exact Hin|].
        destruct (HR b Hb) as [path Hres]. exact (resolves_valid _ _ _ _ Hres). }
      assert (Q ≠ a) as HQa by (destruct HQ; congruence).
      pose proof (two_parents f Q a b HQb Hab HQa). lia.
  - rewrite size_union by set_solver. rewrite size_singleton. lia.
Qed.

Section Each.
Variable n : nat.
Variable enter :
  string -> list (string * link) -> list nat -> option (list visit * list nat).
Hypothesis enter_ok :
  forall prefix P links G seen,
    Pre n P links G seen ->
    exists out seen',
      enter prefix links seen = Some (out, seen')
      ∧ Post P prefix links G out seen'.

Lemma each_link_ok prefix P links :
  forall G seen,
    Pre (S n) P links G seen ->
    exists out seen',
      each_link f enter prefix links seen = Some (out, seen')
      ∧ Post P prefix links G out seen'.
Proof.
  induction links as [|[name l] links IH]; intros G seen HPre.
  { exists [], seen. split; [reflexivity|]. apply Post_nil. apply HPre. }
  pose proof (Pre_tail _ _ _ _ _ _ HPre) as HPre'.
  destruct l as [a|]; cbn [each_link].
  2:{ destruct (IH G seen HPre') as (out & seen' & Hrun & HPost).
      exists out, seen'. split; [exact Hrun|].
      apply Post_skip; [discriminate | exact HPost]. }
  destruct (f !! a) as [obj|] eqn:Ha.
  2:{ destruct (IH G seen HPre') as (out & seen' & Hrun & HPost).
      exists out, seen'. split; [exact Hrun|].
      apply Post_skip; [|exact HPost].
      intros b [= <-] [x Hx]. congruence. }
  destruct (decide (a ∈ seen)) as [Hs|Hns].
  { rewrite bool_decide_eq_true_2 by exact Hs.
    destruct (IH G seen HPre') as (out & seen' & Hrun & HPost).
    exists out, seen'. split; [exact Hrun|].
    apply Post_skip; [|exact HPost].
    intros b [= <-] _. destruct HPre as ((_ & Hseen & _) & _).
    apply Hseen in Hs. tauto. }
  rewrite bool_decide_eq_false_2 by exact Hns. cbv zeta.
  destruct (visit_is_new _ _ _ _ _ _ _ _ HPre Ha Hns) as (Hm & HaG & Has).
  assert (child f P a) as Hch by (exists name; exact Hm).
  set (seen1 := if Nat.ltb 1 (link_count f a) then a :: seen else seen).
  set (G1 := {[a]} ∪ G).
  assert (Inv G1 seen1) as HI1.
  { destruct HPre as (HI & HP & _). exact (Inv_visit G seen P a HI HP Hch HaG Has). }
  (* below the object *)
  assert (exists out_b seen2,
            match obj with
            | Group sub => enter ((prefix +:+ name) +:+ "/") (name_index sub) seen1
            | _ => Some ([], seen1)
            end = Some (out_b, seen2)
            ∧ Post a ((prefix +:+ name) +:+ "/") (name_index (links_of obj))
                G1 out_b seen2) as (out_b & seen2 & Hrun_b & HPost_b).
  { destruct obj as [shape dtype_str|sub|].
    - exists [], seen1. split; [reflexivity | apply Post_nil, HI1].
    - apply enter_ok. exact (Pre_enter _ _ _ _ _ _ _ _ HPre Ha Hns).
    - exists [], seen1. split; [reflexivity | apply Post_nil, HI1]. }
  rewrite Hrun_b. cbn [mbind option_bind fst snd].
  destruct HPost_b as (HI2 & Hnd_b & Hnew_b & Hpath_b & HJ_b & Hlinks_b & Hcl_b).
  set (G2 := G1 ∪ list_to_set (map addr_of out_b)) in *.
  (* the links after it *)
  assert (Pre (S n) P links G2 seen2) as HPre2.
  { destruct HPre as (HI & HP & (raw & done & Hraw & Hperm) & Hfresh & Hfuel).
    split; [exact HI2|]. split; [destruct HP; [left; set_solver | right; assumption]|].
    split; [|split].
    - exists raw, (done ++ [(name, Hard a)]). split; [exact Hraw|].
      rewrite <- app_assoc. exact Hperm.
    - intros name' b Hin Hrc Hb.
      assert (child f P b -> False) as Hcontra.
      { intros HPb. unfold G2, G1 in Hb.
        apply elem_of_union in Hb as [Hb|Hb];
          [apply elem_of_union in Hb as [Hb|Hb]|].
        - apply elem_of_singleton in Hb. subst b.
          pose proof (two_links f P raw done name name' links a Hraw Hperm Hin). lia.
        - apply (Hfresh name' b); [right; exact Hin | exact Hrc | exact Hb].
        - apply elem_of_list_to_set in Hb.
          destruct (HJ_b b Hb) as (Q & HQ & HQb).
          assert (Q ≠ P) as HQP.
          { destruct HQ as [->|HQ].
            - destruct HP; congruence.
            - intros ->. pose proof (Hnew_b P HQ) as HnP.
              destruct HI2 as (Hns2 & _).
              destruct HP as [HP| ->]; [apply HnP; set_solver|].
              apply Hns2. unfold G2. apply elem_of_union. right.
              apply elem_of_list_to_set. exact HQ. }
          pose proof (two_parents f Q P b HQb HPb HQP). lia. }
      apply Hcontra. exists name', raw. split; [exact Hraw|]. split.
      + rewrite Hperm. apply elem_of_app. right. right. exact Hin.
      + destruct HI2 as (_ & _ & HR2 & _). destruct (HR2 b Hb) as [path Hres].
        exact (resolves_valid _ _ _ _ Hres).
    - assert (size G <= size G2) by (apply subseteq_size; set_solver). lia. }
  destruct (IH G2 seen2 HPre2) as (out_r & seen3 & Hrun_r & HPost_r).
  rewrite Hrun_r. cbn [mbind option_bind fst snd].
  exists ((prefix +:+ name, a, obj) :: out_b ++ out_r), seen3.
  split; [reflexivity|].
  destruct HPost_r as (HI3 & Hnd_r & Hnew_r & Hpath_r & HJ_r & Hlinks_r & Hcl_r).
  assert (G ∪ list_to_set (map addr_of ((prefix +:+ name, a, obj) :: out_b ++ out_r))
          = G2 ∪ list_to_set (map addr_of out_r)) as HG.
  { unfold G2, G1. cbn [map addr_of fst snd]. rewrite map_app.
    rewrite list_to_set_cons, list_to_set_app_L. set_solver. }
  unfold Post. rewrite HG.
  assert (forall c, c ∈ map addr_of ((prefix +:+ name, a, obj) :: out_b ++ out_r)
                    <-> c = a ∨ c ∈ map addr_of out_b ∨ c ∈ map addr_of out_r)
    as Hmem.
  { intros c. cbn [map addr_of fst snd]. rewrite map_app, elem_of_cons, elem_of_app.
    reflexivity. }
  split; [exact HI3|]. split; [|split; [|split; [|split; [|split]]]].
  - cbn [map addr_of fst snd]. rewrite map_app. apply NoDup_cons. split.
    + intros Hin. apply elem_of_app in Hin as [Hin|Hin].
      * apply (Hnew_b a Hin). unfold G1. set_solver.
      * apply (Hnew_r a Hin). unfold G2, G1. set_solver.
    + apply NoDup_app. split; [exact Hnd_b|]. split; [|exact Hnd_r].
      intros c Hc Hc'. apply (Hnew_r c Hc'). unfold G2.
      apply elem_of_union. right. apply elem_of_list_to_set. exact Hc.
  - intros c Hc. apply Hmem in Hc as [->|[Hc|Hc]]; [exact HaG| |].
    + intros HcG. apply (Hnew_b c Hc). unfold G1. set_solver.
    + intros HcG. apply (Hnew_r c Hc). unfold G2, G1. set_solver.
  - intros path c o Hin. apply elem_of_cons in Hin as [Hin|Hin].
    + injection Hin as -> -> ->. split; [exact Ha|].
      exists name. split; [reflexivity | apply resolves_member, Hm].
    + apply elem_of_app in Hin as [Hin|Hin].
      * destruct (Hpath_b path c o Hin) as (Hc & rel & -> & Hres).
        split; [exact Hc|]. exists (name +:+ "/" +:+ rel). split.
        -- rewrite !string_app_assoc. reflexivity.
        -- apply resolves_below with a; [exact Hm | exact Hres].
      * exact (Hpath_r path c o Hin).
  - intros c Hc. apply Hmem in Hc as [->|[Hc|Hc]].
    + exists P. split; [left; reflexivity | exact Hch].
    + destruct (HJ_b c Hc) as (Q & HQ & HQc). exists Q. split; [|exact HQc].
      right. apply Hmem. destruct HQ as [->|HQ]; auto.
    + destruct (HJ_r c Hc) as (Q & HQ & HQc). exists Q. split; [|exact HQc].
      destruct HQ as [->|HQ]; [left; reflexivity|]. right. apply Hmem. auto.
  - intros name' b Hin Hb. apply elem_of_cons in Hin as [Hin|Hin].
    + injection Hin as -> ->. left. unfold G2, G1. set_solver.
    + exact (Hlinks_r name' b Hin Hb).
  - intros c b Hc Hcb. apply Hmem in Hc as [->|[Hc|Hc]].
    + destruct Hcb as (name' & sub & Hsub & Hin & Hb).
      rewrite Ha in Hsub. injection Hsub as ->. cbn [links_of] in Hlinks_b.
      destruct (Hlinks_b name' b) as [H|H];
        [apply elem_of_name_index; exact Hin | exact Hb | |right; exact H].
      left. fold G2 in H. set_solver.
    + destruct (Hcl_b c b Hc Hcb) as [H|H]; [|right; exact H].
      left. fold G2 in H. set_solver.
    + exact (Hcl_r c b Hc Hcb).
Qed.
End Each.

Lemma walk_ok n :
  forall prefix P links G seen,
    Pre n P links G seen ->
    exists out seen',
      walk f n prefix links seen = Some (out, seen')
      ∧ Post P prefix links G out seen'.
Proof.
  induction n as [|n IH]; intros prefix P links G seen HPre.
  - exfalso. destruct HPre as (HI & _ & _ & _ & Hfuel).
    pose proof (Inv_size G seen HI). lia.
  - cbn [walk]. apply (each_link_ok n (walk f n) IH). exact HPre.
Qed.

(** The visits of [visititems]: every object below [start], other than
    [start], once, under a path that leads to it. *)
Lemma walked_ok :
  exists out,
    walked f start = Some out
    ∧ NoDup (map addr_of out)
    ∧ (forall a, a ∈ map addr_of out <-> below f start a ∧ a ≠ start)
    ∧ (forall path a obj, (path, a, obj) ∈ out ->
         f !! a = Some obj ∧ resolves f start path a).
Proof.
  set (seen0 := if Nat.ltb 1 (link_count f start) then [start] else []).
  assert (Pre (S (2 * length f)) start (name_index start_links) ∅ seen0) as HPre.
  { split; [|split; [right; reflexivity|split; [|split]]].
    - split; [set_solver|]. split; [|split; intros c Hc; set_solver].
      intros a. unfold seen0. destruct (Nat.ltb_spec 1 (link_count f start)).
      + rewrite list_elem_of_singleton. split.
        * intros ->. auto.
        * intros [[H'|H'] _]; [set_solver | exact H'].
      + split; [intros Hin; apply elem_of_nil in Hin; contradiction|].
        intros [[H'|H'] Hrc]; [set_solver | subst a; lia].
    - exists start_links, []. split; [exact Hstart|].
      cbn [app]. symmetry. apply name_index_perm.
    - intros name b _ _. set_solver.
    - rewrite size_empty. lia. }
  destruct (walk_ok _ "" start _ ∅ seen0 HPre)
    as (out & seen' & Hrun & HI & Hnd & _ & Hpath & _ & Hlinks & Hcl).
  rewrite (left_id_L ∅ (∪)) in HI, Hlinks, Hcl.
  pose proof (fun x => proj1 (elem_of_list_to_set (C:=gset nat) x (map addr_of out)))
    as Hto.
  exists out. split; [|split; [exact Hnd|split]].
  - unfold walked. rewrite Hstart. fold seen0. rewrite Hrun. reflexivity.
  - intros a. split.
    + intros Ha.
      assert (a ∈ (list_to_set (map addr_of out) : gset nat)) as Ha'
        by (apply elem_of_list_to_set; exact Ha).
      destruct HI as (Hns & _ & HR & _).
      split; [exact (HR a Ha') | intros ->; contradiction].
    + intros [[path Hres] Hne].
      assert (forall g path a, resolves f g path a ->
                g ∈ (list_to_set (map addr_of out) : gset nat) ∨ g = start ->
                a ∈ (list_to_set (map addr_of out) : gset nat) ∨ a = start)
        as Hclosed.
      { clear a path Hres Hne. intros g path a Hres.
        induction Hres as [g name a Hm|g name b rest a Hm Hres IH]; intros Hg.
        - destruct Hg as [Hg| ->].
          + apply (Hcl g a); [apply Hto; exact Hg | exists name; exact Hm].
          + destruct Hm as (links & Hl & Hin & Hb).
            rewrite Hstart in Hl. injection Hl as <-.
            apply (Hlinks name a); [apply elem_of_name_index; exact Hin | exact Hb].
        - apply IH. destruct Hg as [Hg| ->].
          + apply (Hcl g b); [apply Hto; exact Hg | exists name; exact Hm].
          + destruct Hm as (links & Hl & Hin & Hb).
            rewrite Hstart in Hl. injection Hl as <-.
            apply (Hlinks name b); [apply elem_of_name_index; exact Hin | exact Hb]. }
      destruct (Hclosed start path a Hres (or_intror eq_refl)) as [H|H];
        [exact (Hto _ H) | contradiction].
  - intros path a obj Hin. destruct (Hpath path a obj Hin) as (Ha & rel & -> & Hres).
    split; [exact Ha | exact Hres].
Qed.
End Walk.

End H5Index.

(* ===================================================================== *)
(** * [extra_data/export.py] *)
(* ===================================================================== *)

Module Export_py.

(** ** Python values

    An array is its shape and its elements in row-major order.  A dictionary
    is an object in the store: the list of its items in insertion order. *)

Record ndarray : Type := { arr_shape : list nat; arr_data : list Z }.

Inductive leaf : Type :=
  | LNone
  | LInt (z : Z)
  | LStr (s : string)
  | LArr (a : ndarray).

Abbreviation loc := nat (only parsing).

Inductive value : Type :=
  | VLeaf (x : leaf)
  | VRef (l : loc).

(** A value with the dictionaries it refers to read out of the store: what a
    callee that only reads its argument can see, and what is serialized. *)
Inductive pyobj : Type :=
  | PLeaf (x : leaf)
  | PDict (items : list (string * pyobj)).

#[global] Instance ndarray_eq_dec : EqDecision ndarray.
Proof. solve_decision. Defined.
#[global] Instance leaf_eq_dec : EqDecision leaf.
Proof. solve_decision. Defined.
#[global] Instance value_eq_dec : EqDecision value.
Proof. solve_decision. Defined.

Fixpoint pyobj_eqb (x y : pyobj) : bool :=
  match x, y with
  | PLeaf a, PLeaf b => bool_decide (a = b)
  | PDict xs, PDict ys =>
      (fix items_eqb (xs ys : list (string * pyobj)) : bool :=
         match xs, ys with
         | [], [] => true
         | (k, v) :: xs', (k', v') :: ys' =>
             bool_decide (k = k') && pyobj_eqb v v' && items_eqb xs' ys'
         | _, _ => false
         end) xs ys
  | _, _ => false
  end.

(** ** Dictionaries, in insertion order *)

Section Dict.
Context {V : Type}.

(** [d[k]], [None] for a missing key. *)
Fixpoint dict_get (k : string) (d : list (string * V)) : option V :=
  match d with
  | [] => None
  | (k', v) :: d' => if bool_decide (k = k') then Some v else dict_get k d'
  end.

(** [d[k] = v]: an existing key keeps its place, a new key goes last. *)
Fixpoint dict_set (k : string) (v : V) (d : list (string * V))
    : list (string * V) :=
  match d with
  | [] => [(k, v)]
  | (k', v') :: d' =>
      if bool_decide (k = k') then (k, v) :: d' else (k', v') :: dict_set k v d'
  end.

Definition dict_has (k : string) (d : list (string * V)) : bool :=
  bool_decide (k ∈ map fst d).

(** The items whose key is not [k].  The keys of a dictionary are distinct,
    so this removes the item of [k]. *)
Definition dict_remove (k : string) (d : list (string * V))
    : list (string * V) :=
  filter (fun kv => fst kv ≠ k) d.
End Dict.

Abbreviation dict := (list (string * value)).
Abbreviation store := (list (list (string * value))).

(** ** Exceptions, outcomes, and the state of a run *)

Inductive exn : Type :=
  | SourceNameError
  | NotFoundError
  | FormatError
  | InconsistentModulesError
  | ShapeError
  | KeyError (key : string)
  | TypeError
  | StopIteration
  | KeyboardInterrupt
  | OtherError (msg : string).

Inductive outcome (A : Type) : Type :=
  | Returned (a : A)
  | Raised (e : exn).
Arguments Returned {A} a.
Arguments Raised {A} e.

(** What the run does to the outside: the calls on the [ServerInThread] and
    the line printed.  [Feed] holds the frame as it is when [feed] is called;
    the train id of the iteration stands next to it, though the transport is
    not given it. *)
Inductive event : Type :=
  | Start (endpoint : string) (dummy_timestamps : bool)
  | Print (line : string)
  | Feed (tid : Z) (frame : pyobj)
  | Stop.

Record world : Type := { heap : store; events : list event }.

Definition M (A : Type) : Type := world -> outcome A * world.

Definition ret {A : Type} (a : A) : M A := fun w => (Returned a, w).
Definition raise {A : Type} (e : exn) : M A := fun w => (Raised e, w).
Definition bind {A B : Type} (m : M A) (f : A -> M B) : M B :=
  fun w => match m w with
           | (Returned a, w') => f a w'
           | (Raised e, w') => (Raised e, w')
           end.
Definition lift {A : Type} (o : outcome A) : M A := fun w => (o, w).

#[global] Instance M_ret : MRet M := @ret.
#[global] Instance M_bind : MBind M := fun A B f m => bind m f.

Definition get_heap : M store := fun w => (Returned (heap w), w).
Definition emit (e : event) : M unit :=
  fun w => (Returned tt, {| heap := heap w; events := events w ++ [e] |}).

(** A new dictionary object. *)
Definition alloc (d : dict) : M loc :=
  fun w => (Returned (length (heap w)),
            {| heap := heap w ++ [d]; events := events w |}).

(** The dictionary a value refers to; anything else is not subscriptable. *)
Definition deref (v : value) : M (loc * dict) :=
  fun w => match v with
           | VRef l => match heap w !! l with
                       | Some d => (Returned (l, d), w)
                       | None => (Raised TypeError, w)
                       end
           | VLeaf _ => (Raised TypeError, w)
           end.

Definition write (l : loc) (d : dict) : M unit :=
  fun w => (Returned tt, {| heap := <[l := d]> (heap w); events := events w |}).

(** [v[k]] *)
Definition getitem (v : value) (k : string) : M value :=
  ld ← deref v;
  match dict_get k (snd ld) with
  | Some x => ret x
  | None => raise (KeyError k)
  end.

(** [v[k] = x] *)
Definition setitem (v : value) (k : string) (x : value) : M unit :=
  ld ← deref v;
  write (fst ld) (dict_set k x (snd ld)).

(** [del v[k]] *)
Definition delitem (v : value) (k : string) : M unit :=
  ld ← deref v;
  if dict_has k (snd ld) then write (fst ld) (dict_remove k (snd ld))
  else raise (KeyError k).

(** [for x in xs: body(x)] *)
Fixpoint for_each {A : Type} (xs : list A) (body : A -> M unit) : M unit :=
  match xs with
  | [] => ret tt
  | x :: xs' => body x;; for_each xs' body
  end.

(** A value read out of the store, [depth] dictionaries deep. *)
Fixpoint snapshot (depth : nat) (h : store) (v : value) : pyobj :=
  match v with
  | VLeaf x => PLeaf x
  | VRef l =>
      match depth with
      | O => PDict []
      | S n => PDict (map (fun kv => (fst kv, snapshot n h (snd kv)))
                          (default [] (h !! l)))
      end
  end.

Definition snapshot_items (depth : nat) (h : store) (d : dict)
    : list (string * pyobj) :=
  map (fun kv => (fst kv, snapshot depth h (snd kv))) d.

(** ** [ZMQStreamer] *)

(** The arguments that reach [ServerInThread.__init__]. *)
Record server_init : Type := {
  init_endpoint : string;
  init_sock : string;
  init_maxlen : nat;
  init_protocol_version : string;
  init_dummy_timestamps : bool
}.

(** [ZMQStreamer.__init__]: the deprecation warning, and the call of the
    parent's [__init__] on [tcp://*:<port>]. *)
Definition ZMQStreamer (port sock : string) (maxlen : nat)
    (protocol_version : string) (dummy_timestamps : bool) : string * server_init :=
  ("Please use :ref:karabo_bridge.ServerInThread instead",
   {| init_endpoint := "tcp://*:" +:+ port;
      init_sock := sock;
      init_maxlen := maxlen;
      init_protocol_version := protocol_version;
      init_dummy_timestamps := dummy_timestamps |}).

(** With the defaults of the signature:
    [sock='REP', maxlen=10, protocol_version='2.2', dummy_timestamps=False]. *)
Definition ZMQStreamer_defaults (port : string) : string * server_init :=
  ZMQStreamer port "REP" 10 "2.2" false.

(** ** The file reader ([extra_data.reader]) *)

(** Modelled from the spec: the reader, [extra_data.reader], is not among the
    sources.  A record is a mapping from keys to values and a reserved
    metadata entry; a frame is a source map from source names to records; a
    run is a sequence of frames, each with its train id. *)
Record SourceRecord : Type := {
  rec_keys : list (string * leaf);
  rec_metadata : list (string * leaf)
}.

Abbreviation Frame := (list (string * SourceRecord)).

Record DataCollection : Type := { frames : list (Z * Frame) }.

(** What a path names on disk.  A file or a member of a directory that the
    reader does not recognise has no content. *)
Inductive fs_entry : Type :=
  | Missing
  | RegularFile (content : option DataCollection)
  | Directory (files : list (option DataCollection)).

(** Modelled from the spec: [H5File(path)], the reader's [open] of one file.
    It fails with [NotFoundError] if the path does not exist and with
    [FormatError] if it is not a recognisable file. *)
Definition H5File (fs : string -> fs_entry) (path : string)
    : outcome DataCollection :=
  match fs path with
  | Missing => Raised NotFoundError
  | RegularFile (Some data) => Returned data
  | RegularFile None => Raised FormatError
  | Directory _ => Raised FormatError
  end.

(** Modelled from the spec: [RunDirectory(path)], the reader's [open] of a
    directory of files representing one run.  Every file must be
    recognisable, and there must be one; the frames of the run are those of
    its files, in the order of the files. *)
Definition RunDirectory (fs : string -> fs_entry) (path : string)
    : outcome DataCollection :=
  match fs path with
  | Missing => Raised NotFoundError
  | RegularFile _ => Raised FormatError
  | Directory files =>
      match files, mapM id files with
      | _ :: _, Some runs => Returned {| frames := concat (map frames runs) |}
      | _, _ => Raised FormatError
      end
  end.

(** [os.path.isdir] *)
Definition isdir (fs : string -> fs_entry) (path : string) : bool :=
  match fs path with Directory _ => true | _ => false end.

(** Modelled from the spec: glob matching is case-sensitive and [*] matches
    any run of characters. *)
Fixpoint glob_match (pat s : string) : bool :=
  match pat with
  | EmptyString => match s with EmptyString => true | _ => false end
  | String c pat' =>
      if bool_decide (c = "*"%char) then
        (fix star (s : string) : bool :=
           glob_match pat' s ||
           match s with EmptyString => false | String _ s' => star s' end) s
      else
        match s with
        | EmptyString => false
        | String d s' => bool_decide (c = d) && glob_match pat' s'
        end
  end.

(** Modelled from the spec: the part of [select] within one selected source;
    the glob applies to its keys, the metadata entry stays. *)
Definition select_record (key_glob : string) (r : SourceRecord) : SourceRecord :=
  {| rec_keys := filter (fun kv => glob_match key_glob (fst kv) = true) (rec_keys r);
     rec_metadata := rec_metadata r |}.

(** Modelled from the spec: [select] on one frame.  The source glob applies
    to the source names; a source left without data is not in the frame, so
    that a frame with no matching data is empty. *)
Definition select_frame (source_glob key_glob : string) (fr : Frame) : Frame :=
  filter (fun sr => rec_keys (snd sr) ≠ [])
    (map (fun sr => (fst sr, select_record key_glob (snd sr)))
       (filter (fun sr => glob_match source_glob (fst sr) = true) fr)).

(** Modelled from the spec: [data.select(source_glob, key_glob)], a filtered
    view; every frame is still produced. *)
Definition select (source_glob key_glob : string) (data : DataCollection)
    : DataCollection :=
  {| frames := map (fun tf => (fst tf, select_frame source_glob key_glob (snd tf)))
                   (frames data) |}.

(** The dictionaries of a record and of a frame, read out. *)
Definition leaf_items (l : list (string * leaf)) : list (string * pyobj) :=
  map (fun kv => (fst kv, PLeaf (snd kv))) l.

Definition record_obj (r : SourceRecord) : list (string * pyobj) :=
  ("metadata", PDict (leaf_items (rec_metadata r))) :: leaf_items (rec_keys r).

Definition frame_obj (fr : Frame) : list (string * pyobj) :=
  map (fun sr => (fst sr, PDict (record_obj (snd sr)))) fr.

(** The dictionaries of a record in the store: its metadata, and its keys
    with the reference to the metadata under [metadata]. *)
Definition meta_dict (r : SourceRecord) : dict :=
  map (fun kv => (fst kv, VLeaf (snd kv))) (rec_metadata r).

Definition rec_dict (m : loc) (r : SourceRecord) : dict :=
  ("metadata", VRef m) :: map (fun kv => (fst kv, VLeaf (snd kv))) (rec_keys r).

(** Modelled from the spec: the contents of a frame are created fresh, a new
    dictionary for the metadata and one for the record of a source. *)
Definition new_record (r : SourceRecord) : M value :=
  m ← alloc (meta_dict r);
  l ← alloc (rec_dict m r);
  mret (VRef l).

(** Modelled from the spec: the records of a frame, source by source. *)
Fixpoint new_sources (fr : Frame) : M dict :=
  match fr with
  | [] => mret []
  | sr :: fr' =>
      v ← new_record (snd sr);
      d ← new_sources fr';
      mret ((fst sr, v) :: d)
  end.

(** Modelled from the spec: one step of [data.trains()].  The frame is
    created fresh: its records, and a new dictionary for the source map. *)
Definition new_train (fr : Frame) : M value :=
  d ← new_sources fr;
  l ← alloc d;
  mret (VRef l).

(** ** Detector components ([extra_data.components]) and stacking
       ([extra_data.stacking]) *)

(** What [serve_files] reads of a detector object: [det.detector_name] and
    the set [det.data.detector_sources]. *)
Record Detector : Type := {
  detector_name : string;
  detector_sources : gset string
}.

(** The text after the last [/] of a source name. *)
Fixpoint last_segment_from (acc s : string) : string :=
  match s with
  | EmptyString => acc
  | String c s' =>
      if bool_decide (c = "/"%char) then last_segment_from EmptyString s'
      else last_segment_from (acc +:+ String c EmptyString) s'
  end.

Definition digit_of (c : ascii) : option nat :=
  let n := nat_of_ascii c in
  if Nat.leb 48 n && Nat.leb n 57 then Some (n - 48)%nat else None.

(** The decimal number a string starts with, and the text after it. *)
Fixpoint leading_number (acc : option nat) (s : string) : option nat * string :=
  match s with
  | EmptyString => (acc, s)
  | String c s' =>
      match digit_of c with
      | Some d => leading_number (Some (10 * default 0 acc + d)%nat) s'
      | None => (acc, s)
      end
  end.

(** Modelled from the spec: the last path segment of a module source encodes
    the channel index, a number in front of the fixed text [CH], as in
    [DET/DET/0CH0:xtdf]. *)
Definition channel_index (source : string) : option nat :=
  match leading_number None (last_segment_from EmptyString source) with
  | (Some n, rest) => if String.prefix "CH" rest then Some n else None
  | (None, _) => None
  end.

(** The items of a record other than the stacked key and the metadata. *)
Definition non_data (data : string) (items : list (string * pyobj))
    : list (string * pyobj) :=
  filter (fun kv => fst kv ≠ data ∧ fst kv ≠ "metadata") items.

Definition agree_on (xs ys : list (string * pyobj)) : bool :=
  forallb (fun kv => match dict_get (fst kv) ys with
                     | Some v => pyobj_eqb (snd kv) v
                     | None => false
                     end) xs.

Definition same_non_data (data : string) (r1 r2 : list (string * pyobj)) : bool :=
  agree_on (non_data data r1) (non_data data r2)
  && agree_on (non_data data r2) (non_data data r1).

(** One module as stacking reads it: channel index, record, array. *)
Definition read_module (data : string) (m : string * pyobj)
    : outcome (nat * list (string * pyobj) * option ndarray) :=
  match channel_index (fst m), snd m with
  | Some ch, PDict items =>
      Returned (ch, items,
                match dict_get data items with
                | Some (PLeaf (LArr a)) => Some a
                | _ => None
                end)
  | None, _ => Raised InconsistentModulesError
  | _, PLeaf _ => Raised TypeError
  end.

Fixpoint read_modules (data : string) (train : list (string * pyobj))
    : outcome (list (nat * list (string * pyobj) * option ndarray)) :=
  match train with
  | [] => Returned []
  | m :: train' =>
      match read_module data m with
      | Returned x =>
          match read_modules data train' with
          | Returned xs => Returned (x :: xs)
          | Raised e => Raised e
          end
      | Raised e => Raised e
      end
  end.

Definition by_channel (x y : nat * ndarray) : comparison :=
  Nat.compare (fst x) (fst y).

(** The per-module arrays along a new leading axis, in the order given. *)
Definition stack_arrays (shape : list nat) (arrays : list ndarray) : ndarray :=
  {| arr_shape := length arrays :: shape;
     arr_data := concat (map arr_data arrays) |}.

(** Modelled from the spec: [stack_detector_data(train, data)], the stacked
    array of a module set.  The arrays at key [data] are put along a new
    leading module axis in increasing channel-index order.  It fails with
    [InconsistentModulesError] if the modules disagree on a key other than
    [data], and with [ShapeError] if the arrays cannot be stacked: shapes
    differ, a module has no array, or there is no module. *)
Definition stack_detector_data (train : list (string * pyobj)) (data : string)
    : outcome ndarray :=
  match read_modules data train with
  | Raised e => Raised e
  | Returned [] => Raised ShapeError
  | Returned (((ch0, items0, a0) :: rest) as modules) =>
      if negb (forallb (fun m => same_non_data data items0 (snd (fst m))) rest)
      then Raised InconsistentModulesError
      else
        match a0, mapM (fun m => pair (fst (fst m)) <$> snd m) modules with
        | Some first, Some arrays =>
            if forallb (fun ca => bool_decide (arr_shape (snd ca) = arr_shape first))
                 arrays
            then Returned (stack_arrays (arr_shape first)
                             (map snd (PySort.sorted by_channel arrays)))
            else Raised ShapeError
        | _, _ => Raised ShapeError
        end
  end.

(** ** [serve_files] *)

(** What [serve_files] is run against: the file system, the three detector
    classes (a class applied to the data gives a detector object or raises),
    [find_infiniband_ip()], the [endpoint] property of the started server,
    and the user at the keyboard: [interrupt_at = Some n] delivers
    [KeyboardInterrupt] while the call of [feed] that follows [n] completed
    ones is waiting. *)
Record Collaborators : Type := {
  fs : string -> fs_entry;
  AGIPD1M : DataCollection -> outcome Detector;
  DSSC1M : DataCollection -> outcome Detector;
  LPD1M : DataCollection -> outcome Detector;
  find_infiniband_ip : string;
  bound_endpoint : string -> string;
  interrupt_at : option nat
}.

Definition is_feed (e : event) : bool :=
  match e with Feed _ _ => true | _ => false end.

Section ServeFiles.
Variable C : Collaborators.

(** [streamer.feed(train_data)]: the frame is serialized as it is now.  A
    train dictionary nests three dictionaries deep: source map, record,
    metadata. *)
Definition feed (tid : Z) (train_data : value) : M unit :=
  fun w =>
    if bool_decide (interrupt_at C = Some (length (filter is_feed (events w))))
    then (Raised KeyboardInterrupt, w)
    else emit (Feed tid (snapshot 3 (heap w) train_data)) w.

(** [[if osp.isdir(path): data = RunDirectory(path)
     else: data = H5File(path)]] *)
Definition open_path (path : string) : outcome DataCollection :=
  if isdir (fs C) path then RunDirectory (fs C) path else H5File (fs C) path.

(** [[for detector in classes:
       try: det = detector(data)
       except SourceNameError: continue
       else: break]]
    with [det = None] before the loop. *)
Fixpoint first_detector (classes : list (DataCollection -> outcome Detector))
    (data : DataCollection) : outcome (option Detector) :=
  match classes with
  | [] => Returned None
  | detector :: classes' =>
      match detector data with
      | Returned det => Returned (Some det)
      | Raised SourceNameError => first_detector classes' data
      | Raised e => Raised e
      end
  end.

Definition detect (append_detector_modules : bool) (data : DataCollection)
    : outcome (option Detector) :=
  if append_detector_modules
  then first_detector [AGIPD1M C; DSSC1M C; LPD1M C] data
  else Returned None.

(** [next(iter(det_data.values()))] *)
Definition first_value (det_data : dict) : M value :=
  match det_data with
  | [] => raise StopIteration
  | kv :: _ => mret (snd kv)
  end.

(** The [if det is not None:] block of the loop body. *)
Definition append_modules (det : Detector) (train_data : value) : M unit :=
  let source_name := detector_name det +:+ "/DET/APPEND" in
  items ← deref train_data;
  let det_data :=
    filter (fun kv => fst kv ∈ detector_sources det) (snd items) in
  h ← get_heap;
  stacked ← lift (stack_detector_data (snapshot_items 2 h det_data) "image.data");
  (* get one of the module to reference other datasets *)
  mod_data ← first_value det_data;
  setitem train_data source_name mod_data;;
  setitem mod_data "image.data" (VLeaf (LArr stacked));;
  metadata ← getitem mod_data "metadata";
  setitem metadata "source" (VLeaf (LStr source_name));;
  (* remove individual module sources *)
  for_each (elements (detector_sources det))
           (fun src => delitem train_data src).

(** One turn of [for tid, train_data in data.trains():]. *)
Definition pump_train (det : option Detector) (tf : Z * Frame) : M unit :=
  train_data ← new_train (snd tf);
  items ← deref train_data;
  match snd items with
  | [] => mret tt
  | _ :: _ =>
      match det with
      | Some det => append_modules det train_data
      | None => mret tt
      end;;
      feed (fst tf) train_data
  end.

(** [serve_files(path, port, source_glob, key_glob, append_detector_modules,
    dummy_timestamps, use_infiniband)].  [Start] stands for the creation of
    the [ServerInThread] and its [start()], [Stop] for [streamer.stop()]. *)
Definition serve_files (path port source_glob key_glob : string)
    (append_detector_modules dummy_timestamps use_infiniband : bool)
    : M unit :=
  data ← lift (open_path path);
  let data := select source_glob key_glob data in
  det ← lift (detect append_detector_modules data);
  let endpoint :=
    "tcp://" +:+ (if use_infiniband then find_infiniband_ip C else "*")
    +:+ ":" +:+ port in
  emit (Start endpoint dummy_timestamps);;
  emit (Print ("Streamer started on: " +:+ bound_endpoint C endpoint));;
  for_each (frames data) (pump_train det);;
  emit Stop.

(** The parsed command line of [main]. *)
Record Args : Type := {
  arg_path : string;
  arg_port : string;
  arg_source : string;
  arg_key : string;
  arg_append_detector_modules : bool;
  arg_dummy_timestamps : bool;
  arg_use_infiniband : bool
}.

(** [main(argv)] after [ap.parse_args(argv)]. *)
Definition main (args : Args) : M unit :=
  serve_files (arg_path args) (arg_port args) (arg_source args) (arg_key args)
    (arg_append_detector_modules args) (arg_dummy_timestamps args)
    (arg_use_infiniband args).
End ServeFiles.

(** A run starts with an empty store and nothing done yet. *)
Definition initial : world := {| heap := []; events := [] |}.

(** The frames fed so far, each with its train id. *)
Definition fed (w : world) : list (Z * pyobj) :=
  omap (fun e => match e with Feed tid fr => Some (tid, fr) | _ => None end)
       (events w).

(** ** The pump, frame by frame

    What [append_modules] leaves in a fresh train dictionary, as a function
    of the frame: the record of the first module in the source map, with the
    stacked array and the new source name, is entered under the new name and
    the module sources are deleted. *)

Definition append_name (det : Detector) : string :=
  detector_name det +:+ "/DET/APPEND".

Definition modules_of (det : Detector) (fr : Frame) : Frame :=
  filter (fun sr => fst sr ∈ detector_sources det) fr.

Definition stacked_record (source_name : string) (stacked : ndarray)
    (r : SourceRecord) : list (string * pyobj) :=
  ("metadata",
   PDict (dict_set "source" (PLeaf (LStr source_name)) (leaf_items (rec_metadata r))))
  :: dict_set "image.data" (PLeaf (LArr stacked)) (leaf_items (rec_keys r)).

(** [for k in ks: del d[k]] *)
Fixpoint delete_all {V : Type} (ks : list string) (d : list (string * V))
    : outcome (list (string * V)) :=
  match ks with
  | [] => Returned d
  | k :: ks' =>
      if dict_has k d then delete_all ks' (dict_remove k d)
      else Raised (KeyError k)
  end.

Definition assemble (det : Detector) (fr : Frame)
    : outcome (list (string * pyobj)) :=
  match stack_detector_data (frame_obj (modules_of det fr)) "image.data" with
  | Raised e => Raised e
  | Returned stacked =>
      match modules_of det fr with
      | [] => Raised StopIteration
      | sr :: _ =>
          delete_all (elements (detector_sources det))
            (dict_set (append_name det)
               (PDict (stacked_record (append_name det) stacked (snd sr)))
               (frame_obj fr))
      end
  end.

(** The frame a turn of the loop hands to [feed], if it gets there. *)
Definition outgoing (det : option Detector) (fr : Frame)
    : outcome (list (string * pyobj)) :=
  match det with
  | Some det => assemble det fr
  | None => Returned (frame_obj fr)
  end.

(** ** Lemmas on dictionaries *)

Section DictLemmas.
Context {V W : Type}.
Implicit Types (d : list (string * V)) (k : string).

Definition on_values (f : V -> W) (d : list (string * V)) : list (string * W) :=
  map (fun kv => (fst kv, f (snd kv))) d.

Lemma on_values_keys (f : V -> W) d : map fst (on_values f d) = map fst d.
Proof. unfold on_values. rewrite map_map. reflexivity. Qed.

Lemma dict_set_on_values (f : V -> W) k v d :
  on_values f (dict_set k v d) = dict_set k (f v) (on_values f d).
Proof.
  induction d as [|[k' v'] d IH]; simpl; [reflexivity|].
  destruct (bool_decide (k = k')); simpl; [reflexivity|].
  rewrite IH. reflexivity.
Qed.

Lemma filter_on_values (P : string -> Prop)
    (HV : forall x : string * V, Decision (P (fst x)))
    (HW : forall x : string * W, Decision (P (fst x))) (f : V -> W) d :
  @filter _ _ _ (fun kv => P (fst kv)) HW (on_values f d)
  = on_values f (@filter _ _ _ (fun kv => P (fst kv)) HV d).
Proof.
  induction d as [|[k' v'] d IH]; simpl; [reflexivity|].
  rewrite !filter_cons. simpl.
  destruct (HW (k', f v')), (HV (k', v')); simpl in *; try contradiction;
    rewrite IH; reflexivity.
Qed.

Lemma dict_has_on_values (f : V -> W) k d :
  dict_has k (on_values f d) = dict_has k d.
Proof. unfold dict_has. rewrite on_values_keys. reflexivity. Qed.

Lemma dict_remove_on_values (f : V -> W) k d :
  dict_remove k (on_values f d) = on_values f (dict_remove k d).
Proof. unfold dict_remove. apply (filter_on_values (fun k' => k' ≠ k)). Qed.
End DictLemmas.

Definition outcome_map {A B : Type} (f : A -> B) (o : outcome A) : outcome B :=
  match o with Returned a => Returned (f a) | Raised e => Raised e end.

Lemma delete_all_on_values {V W : Type} (f : V -> W) ks (d : list (string * V)) :
  delete_all ks (on_values f d) = outcome_map (on_values f) (delete_all ks d).
Proof.
  revert d. induction ks as [|k ks IH]; intros d; simpl; [reflexivity|].
  rewrite dict_has_on_values. destruct (dict_has k d); [|reflexivity].
  rewrite dict_remove_on_values. apply IH.
Qed.

(** Two dictionaries with the same keys that agree on the items which stay
    are the same after the deletions. *)
Definition agree_outside {V : Type} (ks : list string) (a b : string * V) : Prop :=
  fst a = fst b ∧ (fst a ∉ ks -> snd a = snd b).

Lemma agree_outside_keys {V : Type} ks (A B : list (string * V)) :
  Forall2 (agree_outside ks) A B -> map fst A = map fst B.
Proof. induction 1 as [|a b A B [Hk _] _ IH]; simpl; congruence. Qed.

Lemma agree_outside_remove {V : Type} k ks (A B : list (string * V)) :
  Forall2 (agree_outside (k :: ks)) A B ->
  Forall2 (agree_outside ks) (dict_remove k A) (dict_remove k B).
Proof.
  unfold dict_remove.
  induction 1 as [|a b A B [Hk Hv] _ IH]; [constructor|].
  rewrite !filter_cons. rewrite <- Hk.
  destruct (decide (fst a ≠ k)) as [Hne|]; [|exact IH].
  constructor; [|exact IH]. split; [exact Hk|].
  intros Hnot. apply Hv. rewrite not_elem_of_cons. auto.
Qed.

Lemma delete_all_agree {V : Type} ks (A B : list (string * V)) :
  Forall2 (agree_outside ks) A B -> delete_all ks A = delete_all ks B.
Proof.
  revert A B. induction ks as [|k ks IH]; intros A B HAB; simpl.
  - f_equal. induction HAB as [|[ka va] [kb vb] A B [Hk Hv] _ IHF]; [reflexivity|].
    simpl in *. rewrite IHF, Hk, (Hv ltac:(apply not_elem_of_nil)). reflexivity.
  - unfold dict_has. rewrite (agree_outside_keys _ _ _ HAB).
    destruct (bool_decide _); [|reflexivity].
    apply IH. apply agree_outside_remove. exact HAB.
Qed.

Lemma delete_all_returned {V : Type} ks (d d' : list (string * V)) :
  delete_all ks d = Returned d' -> d' = filter (fun kv => fst kv ∉ ks) d.
Proof.
  revert d. induction ks as [|k ks IH]; intros d; simpl.
  - intros [= <-]. induction d as [|kv d IHd]; [reflexivity|].
    rewrite filter_cons_True by apply not_elem_of_nil. congruence.
  - destruct (dict_has k d); [|discriminate]. intros H. apply IH in H. subst d'.
    unfold dict_remove. clear. induction d as [|kv d IHd]; [reflexivity|].
    rewrite !filter_cons. destruct (decide (fst kv ≠ k)) as [Hne|Heq].
    + rewrite filter_cons. destruct (decide (fst kv ∉ ks)) as [Hn|Hn].
      * rewrite decide_True by (rewrite not_elem_of_cons; auto). congruence.
      * rewrite decide_False; [exact IHd|].
        intros Hc. apply Hn. rewrite not_elem_of_cons in Hc. tauto.
    + rewrite decide_False; [exact IHd|].
      intros Hc. apply Heq. rewrite not_elem_of_cons in Hc. tauto.
Qed.

Lemma dict_has_remove_ne {V : Type} k k' (d : list (string * V)) :
  k ≠ k' -> dict_has k (dict_remove k' d) = dict_has k d.
Proof.
  intros Hne. unfold dict_has, dict_remove. apply bool_decide_ext.
  rewrite !list_elem_of_fmap. split.
  - intros (kv & -> & Hin). apply list_elem_of_filter in Hin as [_ Hin]. eauto.
  - intros (kv & -> & Hin). exists kv. split; [reflexivity|].
    apply list_elem_of_filter. split; [|exact Hin]. simpl. congruence.
Qed.

(** When every key is there the deletions go through. *)
Lemma delete_all_present {V : Type} ks (d : list (string * V)) :
  NoDup ks -> (forall k, k ∈ ks -> k ∈ map fst d) ->
  delete_all ks d = Returned (filter (fun kv => fst kv ∉ ks) d).
Proof.
  intros Hnd Hin.
  assert (exists d', delete_all ks d = Returned d') as [d' Hd'].
  { revert d Hin. induction Hnd as [|k ks Hk Hnd IH]; intros d Hin; simpl.
    - eauto.
    - unfold dict_has at 1. rewrite bool_decide_eq_true_2 by (apply Hin; left).
      apply IH. intros k' Hk'.
      assert (dict_has k' (dict_remove k d) = true) as Hh.
      { rewrite dict_has_remove_ne by (intros ->; contradiction).
        apply bool_decide_eq_true_2. apply Hin. right. exact Hk'. }
      apply bool_decide_eq_true_1 in Hh. exact Hh. }
  rewrite Hd'. f_equal. apply delete_all_returned. exact Hd'.
Qed.

(** ** The store after [new_train]

    The dictionaries of a frame are laid out after the objects that were
    there: for the source number [i], the metadata at [n + 2 i] and the
    record at [n + 2 i + 1]; the source map comes last. *)

Fixpoint cells (n : nat) (fr : Frame) : list dict :=
  match fr with
  | [] => []
  | sr :: fr' => meta_dict (snd sr) :: rec_dict n (snd sr) :: cells (S (S n)) fr'
  end.

Fixpoint entries (n : nat) (fr : Frame) : dict :=
  match fr with
  | [] => []
  | sr :: fr' => (fst sr, VRef (S n)) :: entries (S (S n)) fr'
  end.

Lemma cells_length n fr : length (cells n fr) = 2 * length fr.
Proof. revert n. induction fr as [|sr fr IH]; intros n; simpl; [|rewrite IH]; lia. Qed.

Lemma cells_lookup n fr i sr :
  fr !! i = Some sr ->
  cells n fr !! (2 * i) = Some (meta_dict (snd sr))
  ∧ cells n fr !! (2 * i + 1) = Some (rec_dict (n + 2 * i) (snd sr)).
Proof.
  revert n i. induction fr as [|sr' fr IH]; intros n i H; [discriminate|].
  destruct i as [|i].
  - injection H as ->. simpl. rewrite Nat.add_0_r. auto.
  - destruct (IH (S (S n)) i H) as [H1 H2].
    replace (2 * S i) with (S (S (2 * i))) by lia.
    replace (n + S (S (2 * i))) with (S (S n) + 2 * i) by lia.
    split; [exact H1 | exact H2].
Qed.

Lemma entries_lookup n fr i :
  entries n fr !! i = (fun sr => (fst sr, VRef (S (n + 2 * i)))) <$> fr !! i.
Proof.
  revert n i. induction fr as [|sr fr IH]; intros n i; [reflexivity|].
  destruct i as [|i].
  - simpl. rewrite Nat.add_0_r. reflexivity.
  - change (entries n (sr :: fr) !! S i) with (entries (S (S n)) fr !! i).
    rewrite IH. cbn [lookup list_lookup].
    apply option_fmap_ext. intros sr'. do 3 f_equal. lia.
Qed.

Lemma entries_length n fr : length (entries n fr) = length fr.
Proof. revert n. induction fr as [|sr fr IH]; intros n; simpl; [|rewrite IH]; lia. Qed.

Lemma entries_keys n fr : map fst (entries n fr) = map fst fr.
Proof. revert n. induction fr as [|sr fr IH]; intros n; simpl; [|rewrite IH]; reflexivity. Qed.

Definition fresh_heap (h : store) (fr : Frame) : store :=
  h ++ cells (length h) fr ++ [entries (length h) fr].

Definition train_loc (h : store) (fr : Frame) : loc := length h + 2 * length fr.

Lemma new_record_run r w :
  new_record r w
  = (Returned (VRef (S (length (heap w)))),
     {| heap := heap w ++ [meta_dict r; rec_dict (length (heap w)) r];
        events := events w |}).
Proof.
  unfold new_record, mbind, M_bind, bind, alloc, mret, M_ret, ret. simpl.
  rewrite length_app. simpl. rewrite Nat.add_1_r, <- app_assoc. reflexivity.
Qed.

Lemma new_sources_run fr w :
  new_sources fr w
  = (Returned (entries (length (heap w)) fr),
     {| heap := heap w ++ cells (length (heap w)) fr; events := events w |}).
Proof.
  revert w. induction fr as [|sr fr IH]; intros w; simpl.
  - unfold mret, M_ret, ret. rewrite app_nil_r. destruct w; reflexivity.
  - unfold mbind, M_bind, bind. rewrite new_record_run, IH. simpl.
    rewrite length_app. simpl.
    replace (length (heap w) + 2) with (S (S (length (heap w)))) by lia.
    rewrite <- app_assoc. reflexivity.
Qed.

Lemma new_train_run fr w :
  new_train fr w
  = (Returned (VRef (train_loc (heap w) fr)),
     {| heap := fresh_heap (heap w) fr; events := events w |}).
Proof.
  unfold new_train, mbind, M_bind, bind. rewrite new_sources_run.
  unfold alloc, mret, M_ret, ret, train_loc, fresh_heap. simpl.
  rewrite length_app, cells_length, <- app_assoc. reflexivity.
Qed.

Lemma fresh_heap_length h fr : length (fresh_heap h fr) = S (train_loc h fr).
Proof.
  unfold fresh_heap, train_loc. rewrite !length_app, cells_length. simpl. lia.
Qed.

Lemma fresh_heap_train h fr :
  fresh_heap h fr !! train_loc h fr = Some (entries (length h) fr).
Proof.
  unfold fresh_heap, train_loc. rewrite lookup_app_r by lia.
  rewrite lookup_app_r by (rewrite cells_length; lia).
  rewrite cells_length.
  replace (length h + 2 * length fr - length h - 2 * length fr) with 0 by lia.
  reflexivity.
Qed.

Lemma fresh_heap_record h fr i sr :
  fr !! i = Some sr ->
  fresh_heap h fr !! (length h + 2 * i) = Some (meta_dict (snd sr))
  ∧ fresh_heap h fr !! S (length h + 2 * i)
    = Some (rec_dict (length h + 2 * i) (snd sr)).
Proof.
  intros H. destruct (cells_lookup (length h) fr i sr H) as [H1 H2].
  assert (i < length fr) by (apply lookup_lt_Some in H; exact H).
  unfold fresh_heap. split.
  - rewrite lookup_app_r by lia. rewrite lookup_app_l by (rewrite cells_length; lia).
    replace (length h + 2 * i - length h) with (2 * i) by lia. exact H1.
  - rewrite lookup_app_r by lia. rewrite lookup_app_l by (rewrite cells_length; lia).
    replace (S (length h + 2 * i) - length h) with (2 * i + 1) by lia. exact H2.
Qed.

(** ** The dictionary operations on the store *)

Lemma bind_run {A B : Type} (m : M A) (f : A -> M B) w :
  (x ← m; f x) w
  = match m w with
    | (Returned a, w') => f a w'
    | (Raised e, w') => (Raised e, w')
    end.
Proof. reflexivity. Qed.

Lemma get_heap_run w : get_heap w = (Returned (heap w), w).
Proof. reflexivity. Qed.

Lemma lift_run {A : Type} (o : outcome A) w : lift o w = (o, w).
Proof. reflexivity. Qed.

Lemma deref_run l (d : dict) w :
  heap w !! l = Some d -> deref (VRef l) w = (Returned (l, d), w).
Proof. intros H. unfold deref. rewrite H. reflexivity. Qed.

Lemma setitem_run l (d : dict) k x w :
  heap w !! l = Some d ->
  setitem (VRef l) k x w
  = (Returned tt, {| heap := <[l := dict_set k x d]> (heap w); events := events w |}).
Proof. intros H. unfold setitem. rewrite bind_run, (deref_run l d w H). reflexivity. Qed.

Lemma getitem_run l (d : dict) k x w :
  heap w !! l = Some d -> dict_get k d = Some x ->
  getitem (VRef l) k w = (Returned x, w).
Proof.
  intros H Hk. unfold getitem. rewrite bind_run, (deref_run l d w H). simpl.
  rewrite Hk. reflexivity.
Qed.

Lemma for_each_delitem_run ks l (d : dict) w :
  heap w !! l = Some d ->
  exists d', for_each ks (fun src => delitem (VRef l) src) w
             = (outcome_map (fun _ => tt) (delete_all ks d),
                {| heap := <[l := d']> (heap w); events := events w |})
             ∧ (forall d1, delete_all ks d = Returned d1 -> d' = d1).
Proof.
  revert d w. induction ks as [|k ks IH]; intros d w H.
  - exists d. simpl. rewrite list_insert_id by exact H. split.
    + destruct w; reflexivity.
    + intros d1 [= <-]. reflexivity.
  - cbn [for_each delete_all]. rewrite bind_run. unfold delitem at 1.
    rewrite bind_run, (deref_run l d w H). cbn [fst snd].
    destruct (dict_has k d).
    + unfold write at 1.
      destruct (IH (dict_remove k d)
                  {| heap := <[l := dict_remove k d]> (heap w); events := events w |})
        as (d' & Hrun & Hd').
      { simpl. apply list_lookup_insert_eq. apply lookup_lt_Some in H. exact H. }
      exists d'. rewrite Hrun. simpl. rewrite list_insert_insert_eq.
      split; [reflexivity | exact Hd'].
    + exists d. simpl. unfold raise. rewrite list_insert_id by exact H.
      split; [destruct w; reflexivity | discriminate].
Qed.

(** ** Reading records out of the store *)

Lemma snapshot_ref n (h : store) l d :
  h !! l = Some d -> snapshot (S n) h (VRef l) = PDict (snapshot_items n h d).
Proof. intros H. cbn [snapshot]. rewrite H. reflexivity. Qed.

Lemma snapshot_items_on_values depth h d :
  snapshot_items depth h d = on_values (snapshot depth h) d.
Proof. reflexivity. Qed.

Lemma snapshot_leaves depth h (l : list (string * leaf)) :
  snapshot_items depth h (map (fun kv => (fst kv, VLeaf (snd kv))) l)
  = leaf_items l.
Proof.
  unfold snapshot_items, leaf_items. rewrite map_map. apply map_ext. intros [k x].
  destruct depth; reflexivity.
Qed.

Lemma snapshot_record (h : store) b r :
  h !! S b = Some (rec_dict b r) -> h !! b = Some (meta_dict r) ->
  snapshot 2 h (VRef (S b)) = PDict (record_obj r).
Proof.
  intros Hr Hm. rewrite (snapshot_ref _ _ _ _ Hr). unfold rec_dict, record_obj.
  unfold snapshot_items at 1. cbn [map fst snd].
  rewrite (snapshot_ref _ _ _ _ Hm). unfold meta_dict.
  rewrite snapshot_leaves.
  change (map _ (map _ (rec_keys r)))
    with (snapshot_items 1 h (map (fun kv => (fst kv, VLeaf (snd kv))) (rec_keys r))).
  rewrite snapshot_leaves. reflexivity.
Qed.

Lemma snapshot_stacked (h : store) b r stacked source_name :
  h !! S b = Some (dict_set "image.data" (VLeaf (LArr stacked)) (rec_dict b r)) ->
  h !! b = Some (dict_set "source" (VLeaf (LStr source_name)) (meta_dict r)) ->
  snapshot 2 h (VRef (S b)) = PDict (stacked_record source_name stacked r).
Proof.
  intros Hr Hm. rewrite (snapshot_ref _ _ _ _ Hr). unfold rec_dict.
  cbn [dict_set]. rewrite bool_decide_eq_false_2 by discriminate.
  unfold snapshot_items at 1. cbn [map fst snd].
  rewrite (snapshot_ref _ _ _ _ Hm). unfold stacked_record, meta_dict.
  rewrite snapshot_items_on_values, dict_set_on_values, <- snapshot_items_on_values.
  rewrite snapshot_leaves.
  change (map _ (dict_set "image.data" ?x ?d))
    with (on_values (snapshot 1 h) (dict_set "image.data" x d)).
  rewrite dict_set_on_values, <- snapshot_items_on_values, snapshot_leaves.
  reflexivity.
Qed.

Lemma frame_obj_on_values fr :
  frame_obj fr = on_values (fun r => PDict (record_obj r)) fr.
Proof. reflexivity. Qed.

(** A fresh train dictionary reads as the frame it was made from. *)
Lemma snapshot_fresh h fr :
  snapshot_items 2 (fresh_heap h fr) (entries (length h) fr) = frame_obj fr.
Proof.
  apply list_eq. intros i. unfold snapshot_items, frame_obj.
  rewrite !list_lookup_fmap, entries_lookup.
  destruct (fr !! i) as [sr|] eqn:E; [|reflexivity].
  destruct (fresh_heap_record h fr i sr E) as [Hm Hr].
  cbn [fmap option_fmap option_map fst snd].
  rewrite (snapshot_record _ _ _ Hr Hm). reflexivity.
Qed.

Lemma snapshot_modules h fr (S : gset string) :
  snapshot_items 2 (fresh_heap h fr)
    (filter (fun kv => fst kv ∈ S) (entries (length h) fr))
  = frame_obj (filter (fun sr => fst sr ∈ S) fr).
Proof.
  rewrite snapshot_items_on_values.
  rewrite <- (filter_on_values (fun k => k ∈ S) _ _).
  rewrite <- snapshot_items_on_values, snapshot_fresh.
  exact (filter_on_values (fun k => k ∈ S) _ _ (fun r => PDict (record_obj r)) fr).
Qed.

(** The first module in the source map, and where its record is. *)
Lemma first_module (S : gset string) n fr sr0 rest :
  filter (fun sr => fst sr ∈ S) fr = sr0 :: rest ->
  exists i0 rest',
    fr !! i0 = Some sr0 ∧
    filter (fun kv : string * value => fst kv ∈ S) (entries n fr)
    = (fst sr0, VRef (Datatypes.S (n + 2 * i0))) :: rest'.
Proof.
  revert n. induction fr as [|sr fr IH]; intros n; [discriminate|].
  rewrite filter_cons. cbn [entries]. rewrite filter_cons. cbn [fst].
  destruct (decide (fst sr ∈ S)) as [Hin|Hnot].
  - intros [= -> <-]. exists 0. eexists. split; [reflexivity|].
    rewrite Nat.mul_0_r, Nat.add_0_r. reflexivity.
  - intros H. destruct (IH (Datatypes.S (Datatypes.S n)) H) as (i0 & rest' & Hi & Hf).
    exists (Datatypes.S i0), rest'. split; [exact Hi|].
    rewrite Hf. do 3 f_equal. lia.
Qed.

Lemma no_module (S : gset string) n fr :
  filter (fun sr => fst sr ∈ S) fr = [] ->
  filter (fun kv : string * value => fst kv ∈ S) (entries n fr) = [].
Proof.
  revert n. induction fr as [|sr fr IH]; intros n; [reflexivity|].
  rewrite filter_cons. cbn [entries]. rewrite filter_cons. cbn [fst].
  destruct (decide (fst sr ∈ S)); [discriminate|]. apply IH.
Qed.

(** The store after the three assignments of [append_modules], and after
    the deletions have left [d] as the source map. *)
Definition assigned_heap (h : store) (fr : Frame) (i0 : nat) (r0 : SourceRecord)
    (source_name : string) (stacked : ndarray) : store :=
  <[length h + 2 * i0 := dict_set "source" (VLeaf (LStr source_name)) (meta_dict r0)]>
    (<[S (length h + 2 * i0)
       := dict_set "image.data" (VLeaf (LArr stacked))
            (rec_dict (length h + 2 * i0) r0)]>
       (<[train_loc h fr
          := dict_set source_name (VRef (S (length h + 2 * i0)))
               (entries (length h) fr)]>
          (fresh_heap h fr))).

Definition stacked_heap (h : store) (fr : Frame) (i0 : nat) (r0 : SourceRecord)
    (source_name : string) (stacked : ndarray) (d : dict) : store :=
  <[train_loc h fr := d]> (assigned_heap h fr i0 r0 source_name stacked).

Section StackedHeap.
Variables (h : store) (fr : Frame) (i0 : nat) (sr0 : string * SourceRecord).
Variables (source_name : string) (stacked : ndarray) (d : dict).
Hypothesis Hi0 : fr !! i0 = Some sr0.

Let H := stacked_heap h fr i0 (snd sr0) source_name stacked d.

Lemma i0_lt : i0 < length fr.
Proof. apply lookup_lt_Some in Hi0. exact Hi0. Qed.

Lemma assigned_heap_length :
  length (assigned_heap h fr i0 (snd sr0) source_name stacked)
  = S (train_loc h fr).
Proof. unfold assigned_heap. rewrite !length_insert. apply fresh_heap_length. Qed.

Lemma stacked_heap_train : H !! train_loc h fr = Some d.
Proof.
  unfold H, stacked_heap. apply list_lookup_insert_eq.
  rewrite assigned_heap_length. lia.
Qed.

Lemma stacked_heap_first :
  H !! S (length h + 2 * i0)
  = Some (dict_set "image.data" (VLeaf (LArr stacked))
            (rec_dict (length h + 2 * i0) (snd sr0)))
  ∧ H !! (length h + 2 * i0)
    = Some (dict_set "source" (VLeaf (LStr source_name)) (meta_dict (snd sr0))).
Proof.
  pose proof i0_lt. unfold H, stacked_heap, assigned_heap, train_loc. split.
  - rewrite list_lookup_insert_ne by lia. rewrite list_lookup_insert_ne by lia.
    apply list_lookup_insert_eq. rewrite length_insert, fresh_heap_length.
    unfold train_loc. lia.
  - rewrite list_lookup_insert_ne by lia.
    apply list_lookup_insert_eq. rewrite !length_insert, fresh_heap_length.
    unfold train_loc. lia.
Qed.

Lemma stacked_heap_other i sr :
  fr !! i = Some sr -> i ≠ i0 ->
  H !! S (length h + 2 * i) = Some (rec_dict (length h + 2 * i) (snd sr))
  ∧ H !! (length h + 2 * i) = Some (meta_dict (snd sr)).
Proof.
  intros Hi Hne. pose proof i0_lt.
  assert (i < length fr) by (apply lookup_lt_Some in Hi; exact Hi).
  destruct (fresh_heap_record h fr i sr Hi) as [Hm Hr].
  unfold H, stacked_heap, assigned_heap, train_loc.
  rewrite !list_lookup_insert_ne by lia. auto.
Qed.

Lemma stacked_heap_old : take (length h) H = h.
Proof.
  unfold H, stacked_heap, assigned_heap, train_loc.
  rewrite !take_insert_ge by lia. unfold fresh_heap.
  rewrite take_app_length. reflexivity.
Qed.

(** Read from this store, the source map before the deletions is the
    frame with the stacked record entered, but for the module sources. *)
Lemma stacked_agree (ks : list string) :
  fst sr0 ∈ ks ->
  Forall2 (agree_outside ks)
    (snapshot_items 2 H
       (dict_set source_name (VRef (S (length h + 2 * i0))) (entries (length h) fr)))
    (dict_set source_name (PDict (stacked_record source_name stacked (snd sr0)))
       (frame_obj fr)).
Proof.
  intros Hks. destruct stacked_heap_first as [Hr Hm].
  rewrite snapshot_items_on_values, dict_set_on_values.
  rewrite (snapshot_stacked _ _ _ _ _ Hr Hm).
  assert (Forall2 (agree_outside ks)
            (on_values (snapshot 2 H) (entries (length h) fr)) (frame_obj fr)) as HF.
  { apply Forall2_same_length_lookup_2.
    - unfold on_values, frame_obj. rewrite !length_map. apply entries_length.
    - intros i a b. unfold on_values, frame_obj.
      rewrite !list_lookup_fmap, entries_lookup.
      destruct (fr !! i) as [sr|] eqn:E; [|discriminate].
      cbn [fmap option_fmap option_map fst snd]. intros [= <-] [= <-].
      split; [reflexivity|]. cbn [fst snd]. intros Hnot.
      assert (i ≠ i0) as Hne.
      { intros ->. rewrite Hi0 in E. injection E as <-. contradiction. }
      destruct (stacked_heap_other i sr E Hne) as [Hr' Hm'].
      apply (snapshot_record _ _ _ Hr' Hm'). }
  revert HF. generalize (on_values (snapshot 2 H) (entries (length h) fr)).
  generalize (frame_obj fr). generalize (PDict (stacked_record source_name stacked sr0.2)).
  intros v B A HF. induction HF as [|a b A B [Hk Hv] HAB IH].
  - constructor; [split; reflexivity | constructor].
  - destruct a as [ka va], b as [kb vb]. simpl in Hk. subst kb. cbn [dict_set].
    destruct (bool_decide (source_name = ka)).
    + constructor; [split; reflexivity | exact HAB].
    + constructor; [split; [reflexivity | exact Hv] | exact IH].
Qed.
End StackedHeap.

(** ** [append_modules] on a fresh train dictionary *)

Lemma append_modules_run det h evs fr :
  exists h', take (length h) h' = h ∧
    match assemble det fr with
    | Raised e =>
        append_modules det (VRef (train_loc h fr))
          {| heap := fresh_heap h fr; events := evs |}
        = (Raised e, {| heap := h'; events := evs |})
    | Returned F =>
        append_modules det (VRef (train_loc h fr))
          {| heap := fresh_heap h fr; events := evs |}
        = (Returned tt, {| heap := h'; events := evs |})
        ∧ snapshot 3 h' (VRef (train_loc h fr)) = PDict F
    end.
Proof.
  unfold append_modules, assemble.
  rewrite bind_run.
  rewrite (deref_run _ _ {| heap := fresh_heap h fr; events := evs |}
             (fresh_heap_train h fr)).
  cbn [snd]. rewrite bind_run, get_heap_run. cbn [heap].
  rewrite bind_run, lift_run, snapshot_modules.
  fold (modules_of det fr).
  destruct (stack_detector_data (frame_obj (modules_of det fr)) "image.data")
    as [stacked|e].
  2:{ exists (fresh_heap h fr). split; [apply take_app_length | reflexivity]. }
  destruct (modules_of det fr) as [|sr0 rest] eqn:Hmods.
  { exists (fresh_heap h fr). split; [apply take_app_length |].
    rewrite bind_run. unfold modules_of in Hmods.
    rewrite (no_module _ (length h) fr Hmods). reflexivity. }
  unfold modules_of in Hmods.
  destruct (first_module _ (length h) fr sr0 rest Hmods) as (i0 & rest' & Hi0 & Hdet).
  assert (fst sr0 ∈ detector_sources det) as HinS.
  { assert (sr0 ∈ filter (fun sr => fst sr ∈ detector_sources det) fr) as Hin
      by (rewrite Hmods; left).
    apply list_elem_of_filter in Hin as [Hin _]. exact Hin. }
  pose proof (i0_lt fr i0 sr0 Hi0) as Hlt.
  destruct (fresh_heap_record h fr i0 sr0 Hi0) as [Hmeta Hrec].
  rewrite Hdet. rewrite bind_run. cbn [first_value snd mret M_ret ret].
  fold (append_name det).
  (* train_data[source_name] = mod_data *)
  rewrite bind_run.
  rewrite (setitem_run _ _ _ _ {| heap := fresh_heap h fr; events := evs |}
             (fresh_heap_train h fr)).
  cbn [heap events].
  (* mod_data['image.data'] = stacked *)
  rewrite bind_run. erewrite setitem_run; cycle 1.
  { cbn [heap]. rewrite list_lookup_insert_ne by (unfold train_loc; lia). exact Hrec. }
  cbn [heap events].
  (* mod_data['metadata']['source'] = source_name *)
  rewrite bind_run. erewrite getitem_run; cycle 1.
  { cbn [heap]. apply list_lookup_insert_eq.
    rewrite length_insert, fresh_heap_length. unfold train_loc. lia. }
  { unfold rec_dict. cbn [dict_set]. rewrite bool_decide_eq_false_2 by discriminate.
    cbn [dict_get]. rewrite bool_decide_eq_true_2 by reflexivity. reflexivity. }
  rewrite bind_run. erewrite setitem_run; cycle 1.
  { cbn [heap]. rewrite list_lookup_insert_ne by lia.
    rewrite list_lookup_insert_ne by (unfold train_loc; lia). exact Hmeta. }
  cbn [heap events].
  fold (assigned_heap h fr i0 (snd sr0) (append_name det) stacked).
  (* the deletions *)
  set (d2 := dict_set (append_name det) (VRef (S (length h + 2 * i0)))
               (entries (length h) fr)).
  destruct (for_each_delitem_run (elements (detector_sources det)) (train_loc h fr) d2
              {| heap := assigned_heap h fr i0 (snd sr0) (append_name det) stacked;
                 events := evs |}) as (d' & Hrun & Hd').
  { cbn [heap]. unfold assigned_heap.
    rewrite list_lookup_insert_ne by (unfold train_loc; lia).
    rewrite list_lookup_insert_ne by (unfold train_loc; lia).
    apply list_lookup_insert_eq. rewrite fresh_heap_length. lia. }
  rewrite Hrun. cbn [heap events].
  fold (stacked_heap h fr i0 (snd sr0) (append_name det) stacked d').
  exists (stacked_heap h fr i0 (snd sr0) (append_name det) stacked d').
  split; [apply (stacked_heap_old h fr i0 sr0)|].
  pose proof (stacked_agree h fr i0 sr0 (append_name det) stacked d' Hi0
                (elements (detector_sources det))
                ltac:(apply elem_of_elements; exact HinS)) as Hagree.
  apply delete_all_agree in Hagree.
  rewrite snapshot_items_on_values, delete_all_on_values in Hagree.
  fold d2 in Hagree. rewrite <- Hagree.
  destruct (delete_all (elements (detector_sources det)) d2) as [d1|e] eqn:Hdel.
  - cbn [outcome_map]. split; [reflexivity|].
    rewrite (Hd' d1 eq_refl).
    rewrite (snapshot_ref _ _ _ _
               (stacked_heap_train h fr i0 sr0 (append_name det) stacked d1)).
    reflexivity.
  - reflexivity.
Qed.

(** ** The loop over the trains *)

Definition interrupted (C : Collaborators) (evs : list event) : bool :=
  bool_decide (interrupt_at C = Some (length (filter is_feed evs))).

(** The events of the loop from the frames alone. *)
Fixpoint pump_log (C : Collaborators) (det : option Detector)
    (run : list (Z * Frame)) (evs : list event) : outcome unit * list event :=
  match run with
  | [] => (Returned tt, evs)
  | tf :: run' =>
      match snd tf with
      | [] => pump_log C det run' evs
      | _ :: _ =>
          match outgoing det (snd tf) with
          | Raised e => (Raised e, evs)
          | Returned F =>
              if interrupted C evs then (Raised KeyboardInterrupt, evs)
              else pump_log C det run' (evs ++ [Feed (fst tf) (PDict F)])
          end
      end
  end.

Lemma pump_train_run C det tf w :
  exists h', take (length (heap w)) h' = heap w ∧
    pump_train C det tf w
    = match snd tf with
      | [] => (Returned tt, {| heap := h'; events := events w |})
      | _ :: _ =>
          match outgoing det (snd tf) with
          | Raised e => (Raised e, {| heap := h'; events := events w |})
          | Returned F =>
              if interrupted C (events w)
              then (Raised KeyboardInterrupt, {| heap := h'; events := events w |})
              else (Returned tt,
                    {| heap := h';
                       events := events w ++ [Feed (fst tf) (PDict F)] |})
          end
      end.
Proof.
  destruct tf as [tid fr]. cbn [fst snd]. unfold pump_train. cbn [fst snd].
  rewrite bind_run, new_train_run, bind_run.
  rewrite (deref_run _ _ {| heap := fresh_heap (heap w) fr; events := events w |}
             (fresh_heap_train (heap w) fr)).
  cbn [snd]. destruct fr as [|sr fr'].
  { exists (fresh_heap (heap w) []). split; [apply take_app_length | reflexivity]. }
  cbn [entries]. set (fr := sr :: fr').
  destruct det as [det|]; cbn [outgoing].
  - destruct (append_modules_run det (heap w) (events w) fr) as (h' & Hold & Hrun).
    exists h'. split; [exact Hold|]. rewrite bind_run.
    destruct (assemble det fr) as [F|e].
    + destruct Hrun as [-> Hsnap]. unfold feed, interrupted. cbn [events heap].
      destruct (bool_decide _); [reflexivity|].
      unfold emit. cbn [events heap]. rewrite Hsnap. reflexivity.
    + rewrite Hrun. reflexivity.
  - exists (fresh_heap (heap w) fr). split; [apply take_app_length|].
    rewrite bind_run. cbn [mret M_ret ret]. unfold feed, interrupted. cbn [events heap].
    destruct (bool_decide _); [reflexivity|].
    unfold emit. cbn [events heap].
    rewrite (snapshot_ref _ _ _ _ (fresh_heap_train (heap w) fr)), snapshot_fresh.
    reflexivity.
Qed.

Lemma take_prefix_trans {A : Type} (h h' h'' : list A) :
  take (length h) h' = h -> take (length h') h'' = h' -> take (length h) h'' = h.
Proof.
  intros H1 H2.
  assert (length h <= length h')%nat.
  { apply (f_equal length) in H1. rewrite length_take in H1. lia. }
  rewrite <- H2 in H1. rewrite take_take in H1.
  rewrite Nat.min_l in H1 by lia. exact H1.
Qed.

Lemma for_each_pump_run C det run w :
  exists h', take (length (heap w)) h' = heap w ∧
    for_each run (pump_train C det) w
    = (fst (pump_log C det run (events w)),
       {| heap := h'; events := snd (pump_log C det run (events w)) |}).
Proof.
  revert w. induction run as [|tf run IH]; intros w.
  - exists (heap w). split; [apply firstn_all|]. destruct w; reflexivity.
  - cbn [for_each pump_log]. rewrite bind_run.
    destruct (pump_train_run C det tf w) as (h1 & Hold1 & ->).
    destruct (snd tf) as [|sr fr'].
    + destruct (IH {| heap := h1; events := events w |}) as (h2 & Hold2 & ->).
      exists h2. split; [|reflexivity]. cbn [heap] in Hold2.
      apply (take_prefix_trans _ h1); assumption.
    + destruct (outgoing det (sr :: fr')) as [F|e].
      * destruct (interrupted C (events w)).
        -- exists h1. split; [exact Hold1 | reflexivity].
        -- destruct (IH {| heap := h1;
                           events := events w ++ [Feed (fst tf) (PDict F)] |})
             as (h2 & Hold2 & ->).
           exists h2. split; [|reflexivity]. cbn [heap] in Hold2.
           apply (take_prefix_trans _ h1); assumption.
      * exists h1. split; [exact Hold1 | reflexivity].
Qed.

(** The events of a whole run of [serve_files], from the frames alone. *)
Definition serve_log (C : Collaborators) (path port source_glob key_glob : string)
    (append_detector_modules dummy_timestamps use_infiniband : bool)
    (evs : list event) : outcome unit * list event :=
  match open_path C path with
  | Raised e => (Raised e, evs)
  | Returned data =>
      let data := select source_glob key_glob data in
      match detect C append_detector_modules data with
      | Raised e => (Raised e, evs)
      | Returned det =>
          let endpoint :=
            "tcp://" +:+ (if use_infiniband then find_infiniband_ip C else "*")
            +:+ ":" +:+ port in
          match pump_log C det (frames data)
                  ((evs ++ [Start endpoint dummy_timestamps])
                   ++ [Print ("Streamer started on: " +:+ bound_endpoint C endpoint)])
          with
          | (Returned _, evs') => (Returned tt, evs' ++ [Stop])
          | (Raised e, evs') => (Raised e, evs')
          end
      end
  end.

Lemma serve_files_run C path port sg kg app dummy ib w :
  exists h', take (length (heap w)) h' = heap w ∧
    serve_files C path port sg kg app dummy ib w
    = (fst (serve_log C path port sg kg app dummy ib (events w)),
       {| heap := h'; events := snd (serve_log C path port sg kg app dummy ib (events w)) |}).
Proof.
  unfold serve_files, serve_log. rewrite bind_run, lift_run.
  destruct (open_path C path) as [data|e].
  2:{ exists (heap w). split; [apply firstn_all | destruct w; reflexivity]. }
  rewrite bind_run, lift_run.
  destruct (detect C app (select sg kg data)) as [det|e].
  2:{ exists (heap w). split; [apply firstn_all | destruct w; reflexivity]. }
  rewrite bind_run. unfold emit at 1. rewrite bind_run. unfold emit at 1.
  cbn [heap events]. rewrite bind_run.
  match goal with
  | |- context [for_each ?run (pump_train C det) ?w0] =>
      destruct (for_each_pump_run C det run w0) as (h' & Hold & ->)
  end.
  cbn [heap events] in *. exists h'. split; [exact Hold|].
  destruct (pump_log C det _ _) as [[[]|e] evs']; reflexivity.
Qed.

(** ** What reaches the transport *)

Definition nonempty_frames (run : list (Z * Frame)) : list (Z * Frame) :=
  filter (fun tf => snd tf ≠ []) run.

(** The frame of a turn as it is fed, when the turn gets to [feed]. *)
Definition published (det : option Detector) (tf : Z * Frame) : Z * pyobj :=
  (fst tf,
   PDict match outgoing det (snd tf) with Returned F => F | Raised _ => [] end).

Definition feed_event (p : Z * pyobj) : event := Feed (fst p) (snd p).

Definition passes (det : option Detector) (tf : Z * Frame) : Prop :=
  exists F, outgoing det (snd tf) = Returned F.

Lemma fed_app evs1 evs2 h1 h2 h3 :
  fed {| heap := h1; events := evs1 ++ evs2 |}
  = fed {| heap := h2; events := evs1 |} ++ fed {| heap := h3; events := evs2 |}.
Proof. unfold fed. cbn [events]. apply omap_app. Qed.

Lemma fed_feed_events h (l : list (Z * pyobj)) :
  fed {| heap := h; events := map feed_event l |} = l.
Proof.
  unfold fed. cbn [events]. induction l as [|[tid F] l IH]; [reflexivity|].
  cbn [map omap list_omap feed_event fst snd]. rewrite IH. reflexivity.
Qed.

(** Without an interrupt the loop feeds the non-empty frames one after the
    other, up to the first one on which the assembly raises. *)
Lemma pump_log_no_interrupt C det run evs :
  interrupt_at C = None ->
  exists k,
    snd (pump_log C det run evs)
    = evs ++ map feed_event (map (published det) (nonempty_frames (take k run)))
    ∧ Forall (passes det) (nonempty_frames (take k run))
    ∧ match fst (pump_log C det run evs) with
      | Returned _ => take k run = run
      | Raised e =>
          exists tf, run !! k = Some tf ∧ snd tf ≠ []
                     ∧ outgoing det (snd tf) = Raised e
      end.
Proof.
  intros Hint. revert evs. induction run as [|tf run IH]; intros evs.
  - exists 0. cbn. rewrite app_nil_r. repeat split. constructor.
  - cbn [pump_log]. destruct (snd tf) as [|sr fr'] eqn:Hfr.
    + destruct (IH evs) as (k & Hevs & Hpass & Hres). exists (S k).
      cbn [take]. unfold nonempty_frames in *.
      rewrite filter_cons_False by (rewrite Hfr; intros Hc; apply Hc; reflexivity).
      split; [exact Hevs|]. split; [exact Hpass|].
      destruct (fst (pump_log C det run evs)); [congruence | exact Hres].
    + destruct (outgoing det (sr :: fr')) as [F|e] eqn:Hout.
      * unfold interrupted. rewrite Hint. rewrite bool_decide_eq_false_2 by discriminate.
        destruct (IH (evs ++ [Feed (fst tf) (PDict F)])) as (k & Hevs & Hpass & Hres).
        exists (S k). cbn [take]. unfold nonempty_frames in *.
        rewrite filter_cons_True by (rewrite Hfr; discriminate).
        split; [|split].
        -- rewrite Hevs. cbn [map]. unfold published at 2. rewrite Hfr, Hout.
           unfold feed_event at 2. cbn [fst snd]. rewrite <- app_assoc. reflexivity.
        -- constructor; [|exact Hpass]. exists F. rewrite Hfr. exact Hout.
        -- destruct (fst (pump_log C det run _)); [congruence | exact Hres].
      * exists 0. cbn. rewrite app_nil_r. repeat split; [constructor|].
        exists tf. rewrite Hfr. repeat split; [discriminate | exact Hout].
Qed.

Lemma not_stop_in_feeds (l : list (Z * pyobj)) : Stop ∉ map feed_event l.
Proof.
  intros Hin. apply list_elem_of_fmap in Hin as (p & Hp & _). discriminate.
Qed.

Lemma pump_log_app C det run1 run2 evs :
  pump_log C det (run1 ++ run2) evs
  = match pump_log C det run1 evs with
    | (Returned _, evs') => pump_log C det run2 evs'
    | (Raised e, evs') => (Raised e, evs')
    end.
Proof.
  revert evs. induction run1 as [|tf run1 IH]; intros evs; [reflexivity|].
  cbn [app pump_log]. destruct (snd tf); [apply IH|].
  destruct (outgoing det _); [|reflexivity].
  destruct (interrupted C evs); [reflexivity | apply IH].
Qed.

Lemma pump_log_passes C det run evs :
  interrupt_at C = None -> Forall (passes det) (nonempty_frames run) ->
  pump_log C det run evs
  = (Returned tt, evs ++ map feed_event (map (published det) (nonempty_frames run))).
Proof.
  intros Hint Hpass.
  destruct (pump_log_no_interrupt C det run evs Hint) as (k & Hevs & _ & Hres).
  destruct (pump_log C det run evs) as [[[]|e] evs'] eqn:Hlog; cbn [fst snd] in *.
  - rewrite Hres in Hevs. subst evs'. reflexivity.
  - exfalso. destruct Hres as (tf & Hk & Hne & Hout).
    assert (tf ∈ nonempty_frames run) as Hin.
    { apply list_elem_of_filter. split; [exact Hne|].
      apply list_elem_of_lookup. eauto. }
    rewrite Forall_forall in Hpass. destruct (Hpass tf Hin) as [F HF].
    congruence.
Qed.

Lemma fed_start h evs (l : list (Z * pyobj)) :
  fed {| heap := h; events := evs ++ map feed_event l |}
  = fed {| heap := h; events := evs |} ++ l.
Proof. rewrite (fed_app _ _ h h h), fed_feed_events. reflexivity. Qed.

Lemma published_ids det run : map fst (map (published det) run) = map fst run.
Proof. rewrite map_map. reflexivity. Qed.

Lemma select_ids sg kg data :
  map fst (frames (select sg kg data)) = map fst (frames data).
Proof. unfold select. cbn [frames]. rewrite map_map. reflexivity. Qed.

Lemma StronglySorted_sublist {A : Type} (R : A -> A -> Prop) (l1 l2 : list A) :
  sublist l1 l2 -> StronglySorted R l2 -> StronglySorted R l1.
Proof.
  induction 1 as [|x l1 l2 Hsub IH|x l1 l2 Hsub IH]; intros Hs.
  - constructor.
  - apply StronglySorted_inv in Hs as [Hs Hall]. constructor; [auto|].
    rewrite Forall_forall in *. intros y Hy. apply Hall.
    eapply elem_of_sublist; eauto.
  - apply StronglySorted_inv in Hs as [Hs _]. auto.
Qed.

Lemma nonempty_take_sublist k (run : list (Z * Frame)) :
  sublist (map fst (nonempty_frames (take k run))) (map fst run).
Proof.
  apply (fmap_sublist fst). unfold nonempty_frames.
  etrans; [apply sublist_filter | apply sublist_take].
Qed.

(** The loop only adds calls of [feed] to what was done before. *)
Lemma pump_log_feeds C det run evs :
  exists l, snd (pump_log C det run evs) = evs ++ map feed_event l.
Proof.
  revert evs. induction run as [|tf run IH]; intros evs.
  - exists []. cbn. rewrite app_nil_r. reflexivity.
  - cbn [pump_log]. destruct (snd tf) as [|sr fr']; [apply IH|].
    destruct (outgoing det _) as [F|e].
    + destruct (interrupted C evs).
      * exists []. cbn. rewrite app_nil_r. reflexivity.
      * destruct (IH (evs ++ [Feed (fst tf) (PDict F)])) as [l Hl].
        exists ((fst tf, PDict F) :: l). rewrite Hl, <- app_assoc. reflexivity.
    + exists []. cbn. rewrite app_nil_r. reflexivity.
Qed.

Lemma mapM_id_None {A : Type} (l : list (option A)) :
  None ∈ l -> mapM id l = None.
Proof.
  induction l as [|x l' IH]; intros Hin.
  - apply elem_of_nil in Hin. contradiction.
  - apply elem_of_cons in Hin as [<-|Hin]; [reflexivity|].
    cbn. destruct x; [|reflexivity]. cbn. rewrite (IH Hin). reflexivity.
Qed.

(** ** What a successful assembly publishes *)

Section DictGet.
Context {V : Type}.
Implicit Types (d : list (string * V)) (k : string).

Lemma dict_get_set_eq k v d : dict_get k (dict_set k v d) = Some v.
Proof.
  induction d as [|[k' v'] d IH]; cbn [dict_set dict_get].
  - rewrite bool_decide_eq_true_2 by reflexivity. reflexivity.
  - destruct (bool_decide (k = k')) eqn:E; cbn [dict_get].
    + rewrite bool_decide_eq_true_2 by reflexivity. reflexivity.
    + rewrite E. exact IH.
Qed.

Lemma dict_get_set_ne k k' v d :
  k ≠ k' -> dict_get k' (dict_set k v d) = dict_get k' d.
Proof.
  intros Hne. induction d as [|[k0 v0] d IH]; cbn [dict_set dict_get].
  - rewrite bool_decide_eq_false_2 by congruence. reflexivity.
  - destruct (bool_decide (k = k0)) eqn:E; cbn [dict_get].
    + apply bool_decide_eq_true_1 in E. subst k0.
      rewrite !bool_decide_eq_false_2 by congruence. reflexivity.
    + destruct (bool_decide (k' = k0)); [reflexivity | exact IH].
Qed.

Lemma dict_get_filter (P : string -> Prop)
    (HP : forall x : string * V, Decision (P (fst x))) k d :
  P k -> dict_get k (@filter _ _ _ (fun kv => P (fst kv)) HP d) = dict_get k d.
Proof.
  intros Hk. induction d as [|[k' v'] d IH]; [reflexivity|].
  rewrite filter_cons. destruct (decide _) as [Hyes|Hno]; cbn [fst] in *.
  - cbn [dict_get]. rewrite IH. reflexivity.
  - cbn [dict_get]. rewrite bool_decide_eq_false_2 by (intros ->; contradiction).
    exact IH.
Qed.

Lemma dict_set_keys k v d :
  map fst (dict_set k v d)
  = if dict_has k d then map fst d else map fst d ++ [k].
Proof.
  unfold dict_has. induction d as [|[k' v'] d IH]; cbn [dict_set map fst].
  - rewrite bool_decide_eq_false_2 by apply not_elem_of_nil. reflexivity.
  - destruct (bool_decide (k = k')) eqn:E.
    + apply bool_decide_eq_true_1 in E. subst k'.
      rewrite bool_decide_eq_true_2 by left. reflexivity.
    + apply bool_decide_eq_false_1 in E. cbn [map fst]. rewrite IH.
      destruct (bool_decide (k ∈ map fst d)) eqn:E2.
      * apply bool_decide_eq_true_1 in E2.
        rewrite bool_decide_eq_true_2 by (right; exact E2). reflexivity.
      * apply bool_decide_eq_false_1 in E2.
        rewrite bool_decide_eq_false_2; [reflexivity|].
        rewrite not_elem_of_cons. auto.
Qed.

Lemma dict_set_keeps_keys k k' v d :
  k' ∈ map fst d -> k' ∈ map fst (dict_set k v d).
Proof.
  intros Hin. rewrite dict_set_keys. destruct (dict_has k d); [exact Hin|].
  apply elem_of_app. left. exact Hin.
Qed.
End DictGet.

Lemma dict_get_leaf_items k (l : list (string * leaf)) :
  dict_get k (leaf_items l) = PLeaf <$> dict_get k l.
Proof.
  induction l as [|[k' x] l IH]; [reflexivity|].
  cbn [leaf_items map fst snd dict_get].
  destruct (bool_decide (k = k')); [reflexivity | exact IH].
Qed.

Lemma frame_obj_keys fr : map fst (frame_obj fr) = map fst fr.
Proof. unfold frame_obj. rewrite map_map. reflexivity. Qed.

(** The frame that is fed after a successful stacking. *)
Definition stacked_frame (det : Detector) (fr : Frame) (stacked : ndarray)
    (r0 : SourceRecord) : list (string * pyobj) :=
  filter (fun kv => fst kv ∉ detector_sources det)
    (dict_set (append_name det)
       (PDict (stacked_record (append_name det) stacked r0)) (frame_obj fr)).

Lemma assemble_stacked det fr stacked sr0 rest :
  modules_of det fr = sr0 :: rest ->
  stack_detector_data (frame_obj (modules_of det fr)) "image.data" = Returned stacked ->
  (forall src, src ∈ detector_sources det -> src ∈ map fst fr) ->
  assemble det fr = Returned (stacked_frame det fr stacked (snd sr0)).
Proof.
  intros Hmods Hstack Hall. unfold assemble. rewrite Hstack, Hmods.
  rewrite delete_all_present.
  - unfold stacked_frame. f_equal. apply list_filter_iff. intros kv.
    rewrite elem_of_elements. reflexivity.
  - apply NoDup_elements.
  - intros k Hk. apply elem_of_elements in Hk. apply dict_set_keeps_keys.
    rewrite frame_obj_keys. apply Hall. exact Hk.
Qed.

Lemma stack_needs_a_module data : stack_detector_data [] data = Raised ShapeError.
Proof. reflexivity. Qed.

(** ** What a successful stacking returns *)

Definition module_array (data : string) (m : string * pyobj) (ca : nat * ndarray)
    : Prop :=
  channel_index (fst m) = Some (fst ca)
  ∧ exists items, snd m = PDict items
                  ∧ dict_get data items = Some (PLeaf (LArr (snd ca))).

Lemma read_modules_returned data train mods :
  read_modules data train = Returned mods ->
  Forall2 (fun m x =>
             channel_index (fst m) = Some (fst (fst x))
             ∧ snd m = PDict (snd (fst x))
             ∧ forall a, snd x = Some a ->
                 dict_get data (snd (fst x)) = Some (PLeaf (LArr a)))
    train mods.
Proof.
  revert mods. induction train as [|m train IH]; intros mods; cbn [read_modules].
  - intros [= <-]. constructor.
  - unfold read_module at 1.
    destruct (channel_index (fst m)) as [ch|] eqn:Hch; [|destruct (snd m); discriminate].
    destruct (snd m) as [x|items] eqn:Hm; [discriminate|].
    destruct (read_modules data train) as [xs|e]; [|discriminate].
    intros [= <-]. constructor; [|apply IH; reflexivity].
    cbn [fst snd]. split; [exact Hch|]. split; [exact Hm|].
    intros a Ha. destruct (dict_get data items) as [[[| | |a']|]|]; try discriminate.
    congruence.
Qed.

Lemma stack_detector_data_returned train data stacked :
  stack_detector_data train data = Returned stacked ->
  exists (arrays : list (nat * ndarray)) (shape : list nat),
    Forall2 (module_array data) train arrays
    ∧ Forall (fun ca => arr_shape (snd ca) = shape) arrays
    ∧ stacked = stack_arrays shape (map snd (PySort.sorted by_channel arrays)).
Proof.
  unfold stack_detector_data.
  destruct (read_modules data train) as [mods|e] eqn:Hread; [|discriminate].
  apply read_modules_returned in Hread.
  destruct mods as [|[[ch0 items0] a0] rest]; [discriminate|].
  destruct (negb _); [discriminate|].
  destruct a0 as [first|]; [|discriminate].
  destruct (mapM _ _) as [arrays|] eqn:HmapM; [|discriminate].
  destruct (forallb _ arrays) eqn:Hshape; [|discriminate].
  intros [= <-]. exists arrays, (arr_shape first). split; [|split; [|reflexivity]].
  - apply mapM_Some in HmapM. revert HmapM Hread.
    generalize ((ch0, items0, Some first) :: rest). intros mods HmapM Hread.
    clear Hshape. revert arrays HmapM.
    induction Hread as [|m x train mods (Hch & Hm & Ha) _ IH]; intros arrays HmapM.
    + inversion HmapM. constructor.
    + inversion HmapM as [|? ca ? arrays' Hx Hrest]; subst.
      constructor; [|apply IH; exact Hrest].
      destruct (snd x) as [a|] eqn:Hsx; [|discriminate].
      cbn in Hx. injection Hx as <-. cbn [fst snd].
      split; [exact Hch|]. exists (snd (fst x)). split; [exact Hm | apply Ha; reflexivity].
  - apply Forall_forall. intros ca Hin.
    rewrite forallb_forall in Hshape. apply list_elem_of_In in Hin.
    apply Hshape in Hin. apply bool_decide_eq_true_1 in Hin. exact Hin.
Qed.

Lemma by_channel_opp x y : by_channel y x = CompOpp (by_channel x y).
Proof. unfold by_channel. apply Nat.compare_antisym. Qed.

Lemma by_channel_le x y : Cmp.le by_channel x y -> (fst x <= fst y)%nat.
Proof.
  unfold Cmp.le, Cmp.ltb, by_channel.
  destruct (Nat.compare_spec (fst y) (fst x)); try discriminate; lia.
Qed.

(** ** The name of the stacked source *)

Fixpoint has_slash (s : string) : bool :=
  match s with
  | EmptyString => false
  | String c s' => bool_decide (c = "/"%char) || has_slash s'
  end.

(** The text up to and including the last [/]. *)
Fixpoint path_head (s : string) : string :=
  match s with
  | EmptyString => EmptyString
  | String c s' =>
      if has_slash s then String c (path_head s') else EmptyString
  end.

(** A source name with [tag] in the place of its last segment. *)
Definition replace_last_segment (source tag : string) : string :=
  path_head source +:+ tag.

Lemma path_head_no_slash s : has_slash s = false -> path_head s = EmptyString.
Proof.
  destruct s; cbn [path_head]; intros H; [reflexivity | rewrite H; reflexivity].
Qed.

Lemma path_head_app p segment :
  has_slash segment = false ->
  path_head (p +:+ "/" +:+ segment) = p +:+ "/".
Proof.
  intros Hseg. induction p as [|c p IH].
  - change (path_head (String "/" segment) = "/"). cbn [path_head has_slash].
    rewrite bool_decide_eq_true_2 by reflexivity. cbn [orb].
    rewrite (path_head_no_slash _ Hseg). reflexivity.
  - change (path_head (String c (p +:+ "/" +:+ segment)) = String c (p +:+ "/")).
    cbn [path_head]. rewrite IH.
    assert (has_slash (String c (p +:+ "/" +:+ segment)) = true) as ->; [|reflexivity].
    cbn [has_slash]. apply orb_true_intro. right.
    clear IH. induction p as [|c' p IHp].
    + change (has_slash (String "/" segment) = true). cbn [has_slash].
      rewrite bool_decide_eq_true_2 by reflexivity. reflexivity.
    + change (has_slash (String c' (p +:+ "/" +:+ segment)) = true).
      cbn [has_slash]. rewrite IHp. apply orb_true_r.
Qed.

(** A value inside nested dictionaries. *)
Fixpoint obj_at (path : list string) (x : pyobj) : option pyobj :=
  match path with
  | [] => Some x
  | k :: path' =>
      match x with
      | PDict items =>
          match dict_get k items with
          | Some y => obj_at path' y
          | None => None
          end
      | PLeaf _ => None
      end
  end.

Lemma Sorted_weaken {A : Type} (R R' : A -> A -> Prop) (l : list A) :
  (forall x y, R x y -> R' x y) -> Sorted R l -> Sorted R' l.
Proof.
  intros HR. induction 1 as [|x l Hs IH Hhd]; constructor; [exact IH|].
  destruct Hhd; constructor. apply HR. assumption.
Qed.

Lemma keys_filter {V : Type} (P : string -> Prop)
    (HP : forall x : string * V, Decision (P (fst x))) k (d : list (string * V)) :
  k ∈ map fst (@filter _ _ _ (fun kv => P (fst kv)) HP d) <-> P k ∧ k ∈ map fst d.
Proof.
  rewrite !list_elem_of_fmap. split.
  - intros (kv & -> & Hin). apply list_elem_of_filter in Hin as [HPk Hin]. eauto.
  - intros (HPk & kv & -> & Hin). exists kv. split; [reflexivity|].
    apply list_elem_of_filter. auto.
Qed.

Lemma dict_set_NoDup {V : Type} k v (d : list (string * V)) :
  NoDup (map fst d) -> NoDup (map fst (dict_set k v d)).
Proof.
  intros Hnd. rewrite dict_set_keys. unfold dict_has.
  destruct (bool_decide (k ∈ map fst d)) eqn:E; [exact Hnd|].
  apply bool_decide_eq_false_1 in E. apply NoDup_app. split; [exact Hnd|]. split.
  - intros x Hx Hin. apply list_elem_of_singleton in Hin. subst x. contradiction.
  - apply NoDup_singleton.
Qed.

Lemma filter_keys_NoDup {V : Type} (P : string * V -> Prop)
    `{!forall x, Decision (P x)} (d : list (string * V)) :
  NoDup (map fst d) -> NoDup (map fst (filter P d)).
Proof.
  intros Hnd.
  refine (sublist_NoDup _ (map fst d) Hnd _).
  apply (fmap_sublist fst), sublist_filter.
Qed.

Lemma pump_train_stacked C det tid fr w stacked sr0 rest :
  interrupt_at C = None ->
  modules_of det fr = sr0 :: rest ->
  stack_detector_data (frame_obj (modules_of det fr)) "image.data" = Returned stacked ->
  (forall src, src ∈ detector_sources det -> src ∈ map fst fr) ->
  exists h',
    pump_train C (Some det) (tid, fr) w
    = (Returned tt,
       {| heap := h';
          events := events w
                    ++ [Feed tid (PDict (stacked_frame det fr stacked (snd sr0)))] |}).
Proof.
  intros Hint Hmods Hstack Hall.
  destruct (pump_train_run C (Some det) (tid, fr) w) as (h' & _ & Hrun).
  exists h'. rewrite Hrun. cbn [fst snd outgoing].
  destruct fr as [|sr fr']; [discriminate|].
  rewrite (assemble_stacked det _ stacked sr0 rest Hmods Hstack Hall).
  unfold interrupted. rewrite Hint.
  rewrite bool_decide_eq_false_2 by discriminate. reflexivity.
Qed.

(** ** Worked examples: a two-module detector *)

Definition module0 : string := "DET/DET/0CH0:xtdf".
Definition module1 : string := "DET/DET/1CH0:xtdf".

Definition det_DET : Detector :=
  {| detector_name := "DET"; detector_sources := {[module0; module1]} |}.

Definition tile (rows cols : nat) (v : Z) : ndarray :=
  {| arr_shape := [rows; cols]; arr_data := repeat v (rows * cols) |}.

Definition module_record (source : string) (image : ndarray) (timestamp : Z)
    : SourceRecord :=
  {| rec_keys := [("image.data", LArr image); ("image.cellId", LInt 7)];
     rec_metadata := [("source", LStr source); ("timestamp", LInt timestamp)] |}.

Definition both_modules : Frame :=
  [(module0, module_record module0 (tile 2 2 0) 10);
   (module1, module_record module1 (tile 2 2 1) 10)].

(** A laboratory: one run directory at [/data/run], a detector class that
    recognises [DET] when [known] and otherwise none, and possibly a user
    who interrupts. *)
Definition lab (run : list (Z * Frame)) (known : bool) (interrupt : option nat)
    : Collaborators :=
  {| fs := fun p =>
       if bool_decide (p = "/data/run")
       then Directory [Some {| frames := run |}]
       else if bool_decide (p = "/data/notes.txt") then RegularFile None
       else Missing;
     AGIPD1M := fun _ => Raised SourceNameError;
     DSSC1M := fun _ => if known then Returned det_DET else Raised SourceNameError;
     LPD1M := fun _ => Raised SourceNameError;
     find_infiniband_ip := "10.0.0.1";
     bound_endpoint := fun e => e;
     interrupt_at := interrupt |}.

Definition xgm_only : Frame :=
  [("SA1_XTD2_XGM/XGM/DOOCS:output",
    {| rec_keys := [("data.intensityTD", LArr (tile 1 4 3))];
       rec_metadata := [("source", LStr "SA1_XTD2_XGM/XGM/DOOCS:output");
                        ("timestamp", LInt 10)] |})].

(** Three trains; the middle one has no detector data, so it is empty once
    the sources are filtered with [DET*]. *)
Definition run_with_gap : list (Z * Frame) :=
  [(100%Z, both_modules); (101%Z, xgm_only); (102%Z, both_modules)].

(** Three trains; in the middle one the second module has no data. *)
Definition run_missing_module : list (Z * Frame) :=
  [(100%Z, both_modules);
   (101%Z, [(module0, module_record module0 (tile 2 2 0) 10)]);
   (102%Z, both_modules)].

(** Two trains; in the first the modules differ in shape. *)
Definition run_bad_shape : list (Z * Frame) :=
  [(100%Z, [(module0, module_record module0 (tile 2 2 0) 10);
            (module1, module_record module1 (tile 3 3 1) 10)]);
   (102%Z, both_modules)].

(** The two-module frame of the specification: each module has an image of
    shape (64, 64); the source map lists module 1 first. *)
Definition scenario_frame : Frame :=
  [(module1, module_record module1 (tile 64 64 1) 10);
   (module0, module_record module0 (tile 64 64 0) 10)].

(** One source map in its two insertion orders; the modules were stamped at
    different times. *)
Definition stamped_0_then_1 : Frame :=
  [(module0, module_record module0 (tile 2 2 0) 10);
   (module1, module_record module1 (tile 2 2 1) 11)].

Definition stamped_1_then_0 : Frame :=
  [(module1, module_record module1 (tile 2 2 1) 11);
   (module0, module_record module0 (tile 2 2 0) 10)].

(** The command line of the examples. *)
Definition example_args : Args :=
  {| arg_path := "/data/run"; arg_port := "4545"; arg_source := "*";
     arg_key := "*"; arg_append_detector_modules := false;
     arg_dummy_timestamps := false; arg_use_infiniband := false |}.

(** The time stamp in the metadata of the stacked source of a fed frame. *)
Definition stamp_of_fed (p : Z * pyobj) : option pyobj :=
  obj_at ["DET/DET/APPEND"; "metadata"; "timestamp"] (snd p).

End Export_py.

(* ===================================================================== *)
(** * The properties stated by the specification *)
(* ===================================================================== *)

Import H5Index Export_py.

(** ** [hdf5_datasets] *)

(** A file with two groups, a nested group and a named datatype; the dataset
    at address 3 has two hard links, and the root has a soft link. *)
Definition example_file : file :=
  [Group [("INSTRUMENT", Hard 1); ("INDEX", Hard 2); ("latest", Symbolic)];
   Group [("b", Hard 3); ("a", Hard 4)];
   Group [("trainId", Hard 5); ("first", Hard 3)];
   Dataset [2%N; 64%N] "<f4";
   Group [("x", Hard 6); ("t", Hard 7)];
   Dataset [10%N] "<u8";
   Dataset [] "<u8";
   NamedDatatype].

(** A file in which the group at address 2, [/p/g], has one link and lies on
    a cycle of hard links: its member [up] is its parent. *)
Definition file_with_a_cycle : file :=
  [Group [("p", Hard 1)];
   Group [("g", Hard 2)];
   Group [("d", Hard 3); ("up", Hard 1)];
   Dataset [4%N] "<i8"].

(** C10, as the library has it.  For a group that has several hard links or
    is not below itself (every group of a file without a cycle of hard
    links), [visititems] returns, and it hands the visitor every object
    below the group through hard links, once, whatever the number of its
    links, under a path that leads to it.  [hdf5_datasets] writes the header
    row [path, shape, dtype] and then one row per dataset among these
    objects; the dataset rows are in sorted order, compared as Python
    compares the lists (the path first, so paths never decrease); and the
    output is the same for every order in which the visitor could have been
    handed the objects. *)
Theorem hdf5_datasets_header_then_sorted_rows
    (f : file) (grp : nat) (links : list (string * link)) :
  f !! grp = Some (Group links) ->
  1 < link_count f grp ∨ ¬ below f grp grp ->
  exists visits : list visit,
    walked f grp = Some visits
    ∧ NoDup (map addr_of visits)
    ∧ (forall a, a ∈ map addr_of visits <-> below f grp a ∧ a ≠ grp)
    ∧ (forall path a obj, (path, a, obj) ∈ visits ->
         f !! a = Some obj ∧ resolves f grp path a)
    ∧ (let rows := PySort.sorted row_compare (dataset_rows (map handed visits)) in
       hdf5_datasets f grp = Some (header :: map csv_fields rows)
       ∧ rows ≡ₚ dataset_rows (map handed visits)
       ∧ Sorted (Cmp.le row_compare) rows
       ∧ Sorted (fun r1 r2 => Cmp.le String.compare (fst r1) (fst r2)) rows
       ∧ (forall others, others ≡ₚ map handed visits ->
            hdf5_datasets_visited others = header :: map csv_fields rows)
       ∧ (forall a shape dtype_str,
            below f grp a -> f !! a = Some (Dataset shape dtype_str) ->
            exists path, (path, (shape, dtype_str)) ∈ rows ∧ resolves f grp path a)).
Proof.
  intros Hgrp Hok.
  destruct (walked_ok f grp links Hgrp Hok) as (visits & Hrun & Hnd & Hcover & Hpath).
  exists visits. split; [exact Hrun|]. split; [exact Hnd|].
  split; [exact Hcover|]. split; [exact Hpath|].
  cbn zeta.
  assert (hdf5_datasets_visited (map handed visits)
          = header :: map csv_fields
                        (PySort.sorted row_compare (dataset_rows (map handed visits))))
    as Hout.
  { unfold hdf5_datasets_visited. rewrite visitor_collects. reflexivity. }
  split; [|split; [|split; [|split; [|split]]]].
  - unfold hdf5_datasets, visititems. rewrite Hrun. cbn [fmap option_fmap option_map].
    rewrite Hout. reflexivity.
  - apply PySort.sorted_perm.
  - apply PySort.sorted_Sorted. apply (Cmp.cmp_opp _ row_lawful).
  - apply (Sorted_weaken (Cmp.le row_compare)); [exact row_le_path|].
    apply PySort.sorted_Sorted. apply (Cmp.cmp_opp _ row_lawful).
  - intros others HP. unfold hdf5_datasets_visited.
    rewrite !visitor_collects. cbn [app]. do 2 f_equal.
    apply PySort.sorted_order_irrelevant; [exact row_lawful|].
    apply dataset_rows_perm. exact HP.
  - intros a shape dtype_str Hbelow Ha.
    assert (a ≠ grp) as Hne by (intros ->; congruence).
    pose proof (proj2 (Hcover a) (conj Hbelow Hne)) as Hin.
    apply list_elem_of_fmap in Hin as ([[path a'] obj] & Heq & Hin).
    cbn in Heq. subst a'.
    destruct (Hpath path a obj Hin) as [Hobj Hres].
    rewrite Ha in Hobj. injection Hobj as <-.
    exists path. split; [|exact Hres].
    rewrite (PySort.sorted_perm row_compare (dataset_rows (map handed visits))).
    unfold dataset_rows. apply list_elem_of_omap.
    exists (path, Dataset shape dtype_str). split; [|reflexivity].
    apply list_elem_of_fmap. exists (path, a, Dataset shape dtype_str).
    split; [reflexivity | exact Hin].
Qed.

Lemma hdf5_datasets_example :
  hdf5_datasets example_file 0
  = Some [["path"; "shape"; "dtype"];
          ["INDEX/first"; "(2, 64)"; "<f4"];
          ["INDEX/trainId"; "(10,)"; "<u8"];
          ["INSTRUMENT/a/x"; "()"; "<u8"]]
  ∧ (exists visits,
        walked example_file 0 = Some visits
        ∧ map addr_of visits = [2; 3; 5; 1; 4; 7; 6]
        ∧ Some (hdf5_datasets_visited (rev (map handed visits)))
          = hdf5_datasets example_file 0).
Proof.
  destruct (hdf5_datasets_header_then_sorted_rows example_file 0
              [("INSTRUMENT", Hard 1); ("INDEX", Hard 2); ("latest", Symbolic)])
    as (visits & Hrun & _ & _ & _ & Hout & _ & _ & _ & Horder & _).
  - reflexivity.
  - right. apply unlinked_not_below. reflexivity.
  - split; [vm_compute; reflexivity|].
    exists visits. split; [exact Hrun|]. split.
    + assert (map addr_of <$> walked example_file 0 = Some [2; 3; 5; 1; 4; 7; 6])
        as H by (vm_compute; reflexivity).
      rewrite Hrun in H. cbn [fmap option_fmap option_map] in H.
      injection H as ->. reflexivity.
    + rewrite Hout. f_equal. apply Horder. symmetry. apply Permutation_rev.
Defined.

(** The claim of C10 fails for a group with one link on a cycle of hard
    links: from [/p/g] the walk comes to [g] again through [up], and as an
    object with one link is not remembered it goes below it again: the one
    dataset of the file is written under two paths. *)
Lemma dataset_written_twice_from_a_group_on_a_cycle :
  hdf5_datasets file_with_a_cycle 2
  = Some [["path"; "shape"; "dtype"];
          ["d"; "(4,)"; "<i8"];
          ["up/g/d"; "(4,)"; "<i8"]]
  ∧ link_count file_with_a_cycle 2 = 1
  ∧ resolves file_with_a_cycle 2 "up/g" 2
  ∧ (forall a shape dtype_str,
        file_with_a_cycle !! a = Some (Dataset shape dtype_str) -> a = 3).
Proof.
  split; [vm_compute; reflexivity|]. split; [vm_compute; reflexivity|]. split.
  - apply (resolves_below file_with_a_cycle 2 "up" 1 "g" 2).
    + exists [("d", Hard 3); ("up", Hard 1)].
      split; [reflexivity|]. split; [set_solver | eexists; reflexivity].
    + apply resolves_member. exists [("g", Hard 2)].
      split; [reflexivity|]. split; [set_solver | eexists; reflexivity].
  - intros [|[|[|[|a]]]] shape dtype_str H; try discriminate; reflexivity.
Qed.

(** ** [serve_files]: which frames are fed *)

(** C1, as the code has it.  When the path opens, no interrupt arrives and
    the reader yields the trains in strictly increasing order:
    - if the assembly raises on no non-empty frame, the run returns and
      exactly the non-empty frames are fed, in the order of the run;
    - that is so whenever no detector is in use, and then the frames are fed
      as the reader made them;
    - in every case the fed frames are the non-empty frames among the first
      [k] of the run, for some [k]: an empty frame is never fed, and the
      train ids fed are strictly increasing; either the run returns and [k]
      covers the whole run, or it raises [e] and frame [k] is a non-empty
      frame on which the assembly raises [e];
    - when the assembly raises [e] on a non-empty frame and on none before
      it, the run raises [e] and the fed frames are the non-empty frames
      before that one: the stream ends there, and neither that frame nor a
      later one is fed. *)
Theorem serve_files_feeds_nonempty_frames_in_order
    (C : Collaborators) (path port source_glob key_glob : string)
    (append dummy infiniband : bool) (data : DataCollection)
    (det : option Detector) :
  open_path C path = Returned data ->
  detect C append (select source_glob key_glob data) = Returned det ->
  interrupt_at C = None ->
  StronglySorted Z.lt (map fst (frames data)) ->
  let run := frames (select source_glob key_glob data) in
  let r := serve_files C path port source_glob key_glob append dummy infiniband
             initial in
  (Forall (passes det) (nonempty_frames run) ->
     fst r = Returned tt
     ∧ fed (snd r) = map (published det) (nonempty_frames run))
  ∧ (det = None ->
       fst r = Returned tt
       ∧ fed (snd r)
         = map (fun tf => (fst tf, PDict (frame_obj (snd tf)))) (nonempty_frames run))
  ∧ (exists k,
       Forall (passes det) (nonempty_frames (take k run))
       ∧ fed (snd r) = map (published det) (nonempty_frames (take k run))
       ∧ match fst r with
         | Returned _ => take k run = run
         | Raised e =>
             exists tf, run !! k = Some tf ∧ snd tf ≠ []
                        ∧ outgoing det (snd tf) = Raised e
         end)
  ∧ StronglySorted Z.lt (map fst (fed (snd r)))
  ∧ (forall before tf after e,
       run = before ++ tf :: after ->
       Forall (passes det) (nonempty_frames before) ->
       snd tf ≠ [] ->
       outgoing det (snd tf) = Raised e ->
       fst r = Raised e
       ∧ fed (snd r) = map (published det) (nonempty_frames before)).
Proof.
  intros Hopen Hdet Hint Hsorted run r.
  destruct (serve_files_run C path port source_glob key_glob append dummy
              infiniband initial) as (h' & _ & Hrun).
  fold r in Hrun. unfold serve_log in Hrun. rewrite Hopen, Hdet in Hrun.
  cbn [events initial] in Hrun. fold run in Hrun.
  set (evs0 := ([] ++ [Start _ dummy]) ++ [Print _]) in Hrun.
  assert (fed {| heap := h'; events := evs0 |} = []) as Hfed0 by reflexivity.
  assert (forall l : list (Z * pyobj),
            fed {| heap := h'; events := (evs0 ++ map feed_event l) ++ [Stop] |} = l)
    as Hfed1.
  { intros l. rewrite (fed_app _ _ h' h' h'), fed_start, Hfed0.
    cbn. apply app_nil_r. }
  assert (Forall (passes det) (nonempty_frames run) ->
          fst r = Returned tt
          ∧ fed (snd r) = map (published det) (nonempty_frames run)) as Hall.
  { intros Hpass. rewrite (pump_log_passes C det run evs0 Hint Hpass) in Hrun.
    rewrite Hrun. cbn [fst snd]. split; [reflexivity | apply Hfed1]. }
  assert (exists k,
            Forall (passes det) (nonempty_frames (take k run))
            ∧ fed (snd r) = map (published det) (nonempty_frames (take k run))
            ∧ match fst r with
              | Returned _ => take k run = run
              | Raised e =>
                  exists tf, run !! k = Some tf ∧ snd tf ≠ []
                             ∧ outgoing det (snd tf) = Raised e
              end)
    as (k & Hpassk & Hk & Hend).
  { destruct (pump_log_no_interrupt C det run evs0 Hint)
      as (k & Hevs & Hpassk & Hres).
    exists k. split; [exact Hpassk|].
    destruct (pump_log C det run evs0) as [[[]|e] evs'];
      cbn [fst snd] in *; subst evs'; rewrite Hrun; cbn [fst snd].
    - split; [apply Hfed1 | exact Hres].
    - split; [|exact Hres]. rewrite fed_start, Hfed0. reflexivity. }
  split; [exact Hall|]. split; [|split; [|split]].
  - intros ->. destruct Hall as [Hret Hfed].
    { apply Forall_forall. intros tf _. eexists. reflexivity. }
    split; [exact Hret|]. rewrite Hfed. apply map_ext. intros tf. reflexivity.
  - exists k. split; [exact Hpassk|]. split; [exact Hk | exact Hend].
  - rewrite Hk, published_ids.
    apply (StronglySorted_sublist _ _ (map fst run)); [apply nonempty_take_sublist|].
    unfold run. rewrite select_ids. exact Hsorted.
  - intros before tf after e Hsplit Hpass Hne Hout.
    rewrite Hsplit, pump_log_app in Hrun.
    rewrite (pump_log_passes C det before evs0 Hint Hpass) in Hrun.
    cbn [pump_log] in Hrun.
    destruct (snd tf) as [|sr fr'] eqn:Hfr; [contradiction|].
    rewrite Hout in Hrun. rewrite Hrun. cbn [fst snd].
    split; [reflexivity|]. rewrite fed_start, Hfed0. reflexivity.
Qed.

Lemma run_with_gap_feeds_100_then_102 :
  map fst (fed (snd (serve_files (lab run_with_gap false None)
                       "/data/run" "4545" "DET*" "*" false false false initial)))
  = [100%Z; 102%Z]
  ∧ (let r := serve_files (lab ((99%Z, both_modules) :: run_bad_shape) true None)
                "/data/run" "4545" "*" "*" true false false initial in
     fst r = Raised ShapeError ∧ map fst (fed (snd r)) = [99%Z]).
Proof.
  split.
  - destruct (serve_files_feeds_nonempty_frames_in_order
                (lab run_with_gap false None) "/data/run" "4545" "DET*" "*"
                false false false {| frames := run_with_gap |} None)
      as (_ & Hnone & _).
    + reflexivity.
    + reflexivity.
    + reflexivity.
    + repeat constructor; lia.
    + destruct (Hnone eq_refl) as [_ Hfed]. rewrite Hfed. reflexivity.
  - destruct (serve_files_feeds_nonempty_frames_in_order
                (lab ((99%Z, both_modules) :: run_bad_shape) true None)
                "/data/run" "4545" "*" "*" true false false
                {| frames := (99%Z, both_modules) :: run_bad_shape |}
                (Some det_DET))
      as (_ & _ & _ & _ & Hends).
    + reflexivity.
    + reflexivity.
    + reflexivity.
    + repeat constructor; lia.
    + destruct (Hends [(99%Z, both_modules)]
                  (100%Z, [(module0, module_record module0 (tile 2 2 0) 10);
                           (module1, module_record module1 (tile 3 3 1) 10)])
                  [(102%Z, both_modules)] ShapeError) as [Hret Hfed].
      * reflexivity.
      * constructor; [|constructor]. eexists. vm_compute. reflexivity.
      * discriminate.
      * vm_compute. reflexivity.
      * cbn zeta. split; [exact Hret|]. rewrite Hfed. reflexivity.
Defined.

(** The claim of C1 fails in append mode: the three trains are not empty,
    the modules of the second differ in shape, and only the first is fed. *)
Lemma stacking_error_ends_the_stream :
  let r := serve_files (lab ((99%Z, both_modules) :: run_bad_shape) true None)
             "/data/run" "4545" "*" "*" true false false initial in
  map fst (nonempty_frames
             (frames (select "*" "*"
                        {| frames := (99%Z, both_modules) :: run_bad_shape |})))
  = [99%Z; 100%Z; 102%Z]
  ∧ map fst (fed (snd r)) = [99%Z]
  ∧ fst r = Raised ShapeError.
Proof. vm_compute. repeat split. Qed.

(** So does a train in which a module has no data: stacking goes through
    with the module that is there, and [del train_data[src]] raises for the
    other. *)
Lemma missing_module_raises_KeyError :
  let r := serve_files (lab run_missing_module true None)
             "/data/run" "4545" "*" "*" true false false initial in
  map fst (fed (snd r)) = [100%Z]
  ∧ fst r = Raised (KeyError module1).
Proof. vm_compute. repeat split. Qed.

(** ** [serve_files]: a frame on which stacking fails *)

(** C2, as the code has it.  [serve_files] has no handler around the
    assembly: when stacking raises on a non-empty frame, the exception leaves
    [serve_files]; the frames before it have been fed, the frame itself and
    the frames after it are not, and the server is not stopped. *)
Theorem stacking_error_leaves_serve_files
    (C : Collaborators) (path port source_glob key_glob : string)
    (append dummy infiniband : bool) (data : DataCollection) (det : Detector)
    (before after : list (Z * Frame)) (tf : Z * Frame) (e : exn) :
  open_path C path = Returned data ->
  detect C append (select source_glob key_glob data) = Returned (Some det) ->
  interrupt_at C = None ->
  frames (select source_glob key_glob data) = before ++ tf :: after ->
  Forall (passes (Some det)) (nonempty_frames before) ->
  snd tf ≠ [] ->
  stack_detector_data (frame_obj (modules_of det (snd tf))) "image.data" = Raised e ->
  let r := serve_files C path port source_glob key_glob append dummy infiniband
             initial in
  fst r = Raised e
  ∧ fed (snd r) = map (published (Some det)) (nonempty_frames before)
  ∧ Stop ∉ events (snd r).
Proof.
  intros Hopen Hdet Hint Hrun Hpass Hne Hstack r.
  destruct (serve_files_run C path port source_glob key_glob append dummy
              infiniband initial) as (h' & _ & Hr).
  fold r in Hr. unfold serve_log in Hr. rewrite Hopen, Hdet, Hrun in Hr.
  cbn [events initial] in Hr.
  set (evs0 := ([] ++ [Start _ dummy]) ++ [Print _]) in Hr.
  rewrite pump_log_app, (pump_log_passes C (Some det) before evs0 Hint Hpass) in Hr.
  cbn [pump_log] in Hr. destruct (snd tf) as [|sr fr'] eqn:Hfr; [contradiction|].
  cbn [outgoing] in Hr. unfold assemble in Hr. rewrite Hstack in Hr.
  rewrite Hr. cbn [fst snd events]. split; [reflexivity|]. split.
  - rewrite fed_start. reflexivity.
  - intros Hin. apply elem_of_app in Hin as [Hin|Hin].
    + unfold evs0 in Hin. cbn in Hin.
      apply elem_of_cons in Hin as [Hin|Hin]; [discriminate|].
      apply elem_of_cons in Hin as [Hin|Hin]; [discriminate|].
      apply elem_of_nil in Hin. exact Hin.
    + exact (not_stop_in_feeds _ Hin).
Qed.

Lemma bad_shape_after_a_good_train :
  let r := serve_files (lab ((99%Z, both_modules) :: run_bad_shape) true None)
             "/data/run" "4545" "*" "*" true false false initial in
  fst r = Raised ShapeError
  ∧ map fst (fed (snd r)) = [99%Z]
  ∧ Stop ∉ events (snd r).
Proof.
  destruct (stacking_error_leaves_serve_files
              (lab ((99%Z, both_modules) :: run_bad_shape) true None)
              "/data/run" "4545" "*" "*" true false false
              {| frames := (99%Z, both_modules) :: run_bad_shape |} det_DET
              [(99%Z, both_modules)] [(102%Z, both_modules)]
              (100%Z, [(module0, module_record module0 (tile 2 2 0) 10);
                       (module1, module_record module1 (tile 3 3 1) 10)])
              ShapeError)
    as (Hres & Hfed & Hstop).
  - reflexivity.
  - reflexivity.
  - reflexivity.
  - reflexivity.
  - repeat constructor. eexists. vm_compute. reflexivity.
  - discriminate.
  - vm_compute. reflexivity.
  - split; [exact Hres|]. split; [|exact Hstop]. rewrite Hfed. reflexivity.
Defined.

(** The claim of C2 fails: the frame whose modules differ in shape is not
    passed through, the train after it is not fed, and [ShapeError] leaves
    [serve_files]. *)
Lemma shape_error_is_not_caught :
  let r := serve_files (lab run_bad_shape true None)
             "/data/run" "4545" "*" "*" true false false initial in
  fst r = Raised ShapeError
  ∧ fed (snd r) = []
  ∧ events (snd r) = [Start "tcp://*:4545" false;
                      Print "Streamer started on: tcp://*:4545"].
Proof. vm_compute. repeat split. Qed.

(** ** [serve_files]: detecting the detector *)

(** C5.  With [append_detector_modules] the classes are tried in the order
    AGIPD1M, DSSC1M, LPD1M and the first that does not raise
    [SourceNameError] gives the detector; if all three raise it, [det] is
    [None], which is no error: the run returns normally and every frame that
    is not empty is fed as the reader made it. *)
Theorem detection_in_priority_order_else_pass_through
    (C : Collaborators) (path port source_glob key_glob : string)
    (dummy infiniband : bool) (data : DataCollection) :
  (forall d det,
      detect C true d = Returned (Some det) <->
      AGIPD1M C d = Returned det
      ∨ (AGIPD1M C d = Raised SourceNameError ∧ DSSC1M C d = Returned det)
      ∨ (AGIPD1M C d = Raised SourceNameError
         ∧ DSSC1M C d = Raised SourceNameError ∧ LPD1M C d = Returned det))
  ∧ (forall d,
        AGIPD1M C d = Raised SourceNameError ->
        DSSC1M C d = Raised SourceNameError ->
        LPD1M C d = Raised SourceNameError ->
        detect C true d = Returned None)
  ∧ (open_path C path = Returned data ->
     interrupt_at C = None ->
     detect C true (select source_glob key_glob data) = Returned None ->
     let r := serve_files C path port source_glob key_glob true dummy infiniband
                initial in
     fst r = Returned tt
     ∧ fed (snd r)
       = map (fun tf => (fst tf, PDict (frame_obj (snd tf))))
           (nonempty_frames (frames (select source_glob key_glob data)))).
Proof.
  split; [|split].
  - intros d det. unfold detect. cbn [first_detector].
    destruct (AGIPD1M C d) as [a|[]]; try (split; [discriminate | intros [H|[[H _]|[H _]]]; discriminate]).
    + split; [intros [= ->]; auto | intros [[= ->]|[[H _]|[H _]]]; [reflexivity | discriminate..]].
    + destruct (DSSC1M C d) as [b|[]];
        try (split; [discriminate | intros [H|[[_ H]|[_ [H _]]]]; discriminate]).
      * split; [intros [= ->]; auto | intros [H|[[_ [= ->]]|[_ [H _]]]]; [discriminate | reflexivity | discriminate]].
      * destruct (LPD1M C d) as [c|[]];
          try (split; [discriminate | intros [H|[[_ H]|[_ [_ H]]]]; discriminate]).
        split; [intros [= ->]; auto 6 | intros [H|[[_ H]|[_ [_ [= ->]]]]]; [discriminate.. | reflexivity]].
  - intros d H1 H2 H3. unfold detect. cbn [first_detector].
    rewrite H1, H2, H3. reflexivity.
  - intros Hopen Hint Hdet r.
    destruct (serve_files_run C path port source_glob key_glob true dummy
                infiniband initial) as (h' & _ & Hr).
    fold r in Hr. unfold serve_log in Hr. rewrite Hopen, Hdet in Hr.
    cbn [events initial] in Hr.
    rewrite pump_log_passes in Hr; [|exact Hint|].
    2:{ apply Forall_forall. intros tf _. eexists. reflexivity. }
    rewrite Hr. cbn [fst snd]. split; [reflexivity|].
    rewrite (fed_app _ _ h' h' h'), fed_start. cbn.
    rewrite app_nil_r. apply map_ext. intros tf. reflexivity.
Qed.

Lemma unknown_detector_passes_frames_through :
  let r := serve_files (lab run_with_gap false None)
             "/data/run" "4545" "*" "*" true false false initial in
  fst r = Returned tt
  ∧ fed (snd r) = [(100%Z, PDict (frame_obj both_modules));
                   (101%Z, PDict (frame_obj xgm_only));
                   (102%Z, PDict (frame_obj both_modules))].
Proof.
  destruct (detection_in_priority_order_else_pass_through
              (lab run_with_gap false None) "/data/run" "4545" "*" "*"
              false false {| frames := run_with_gap |}) as (_ & Hnone & Hrun).
  destruct Hrun as [Hret Hfed].
  - reflexivity.
  - reflexivity.
  - apply Hnone; reflexivity.
  - split; [exact Hret|]. rewrite Hfed. reflexivity.
Defined.

(** ** [serve_files]: opening the path *)

(** C7.  With the reader as the specification describes it, a path that
    does not exist makes [serve_files] raise [NotFoundError], and a file that
    is not recognised, or a directory that is empty or has a file that is not
    recognised, makes it raise [FormatError].  Whatever the reader raises
    leaves [serve_files] before the server is created: nothing is started,
    printed or fed. *)
Theorem opening_errors_abort_before_any_feed
    (C : Collaborators) (path port source_glob key_glob : string)
    (append dummy infiniband : bool) (w : world) :
  let run := serve_files C path port source_glob key_glob append dummy infiniband in
  (fs C path = Missing -> run w = (Raised NotFoundError, w))
  ∧ (fs C path = RegularFile None -> run w = (Raised FormatError, w))
  ∧ (forall files, fs C path = Directory files -> files = [] ∨ None ∈ files ->
       run w = (Raised FormatError, w))
  ∧ (forall e, open_path C path = Raised e -> run w = (Raised e, w)).
Proof.
  intros run.
  assert (forall e, open_path C path = Raised e -> run w = (Raised e, w)) as Hraise.
  { intros e He. unfold run, serve_files. rewrite bind_run, lift_run, He.
    reflexivity. }
  repeat split.
  - intros Hfs. apply Hraise. unfold open_path, isdir, H5File. rewrite Hfs.
    reflexivity.
  - intros Hfs. apply Hraise. unfold open_path, isdir, H5File. rewrite Hfs.
    reflexivity.
  - intros files Hfs Hbad. apply Hraise. unfold open_path, isdir, RunDirectory.
    rewrite Hfs. destruct Hbad as [->|Hin]; [reflexivity|].
    destruct files as [|f files']; [reflexivity|].
    rewrite (mapM_id_None (f :: files') Hin). reflexivity.
  - exact Hraise.
Qed.

Lemma missing_path_and_unrecognised_file :
  serve_files (lab run_with_gap true None)
    "/data/nowhere" "4545" "*" "*" true false false initial
  = (Raised NotFoundError, initial)
  ∧ serve_files (lab run_with_gap true None)
      "/data/notes.txt" "4545" "*" "*" true false false initial
    = (Raised FormatError, initial).
Proof.
  split.
  - apply (opening_errors_abort_before_any_feed (lab run_with_gap true None)
             "/data/nowhere" "4545" "*" "*" true false false initial).
    reflexivity.
  - apply (opening_errors_abort_before_any_feed (lab run_with_gap true None)
             "/data/notes.txt" "4545" "*" "*" true false false initial).
    reflexivity.
Defined.

(** ** [serve_files]: stopping the server *)

(** C8, as the code has it.  [streamer.stop()] is the statement after the
    loop, with no [finally]: the server is stopped exactly when the run
    returns, and then as the last thing done.  A run that is not interrupted
    and on which no frame raises returns by itself; when an exception or a
    keyboard interrupt leaves [serve_files], [stop()] has not been called.
    [main] only calls [serve_files]. *)
Theorem stop_only_when_the_loop_finishes (C : Collaborators) (args : Args) :
  let r := main C args initial in
  (Stop ∈ events (snd r) <-> fst r = Returned tt)
  ∧ (fst r = Returned tt -> exists evs, events (snd r) = evs ++ [Stop])
  ∧ (forall e, fst r = Raised e -> Stop ∉ events (snd r))
  ∧ (forall data det,
        open_path C (arg_path args) = Returned data ->
        detect C (arg_append_detector_modules args)
          (select (arg_source args) (arg_key args) data) = Returned det ->
        interrupt_at C = None ->
        Forall (passes det)
          (nonempty_frames (frames (select (arg_source args) (arg_key args) data))) ->
        fst r = Returned tt).
Proof.
  intros r. unfold main in r.
  destruct (serve_files_run C (arg_path args) (arg_port args) (arg_source args)
              (arg_key args) (arg_append_detector_modules args)
              (arg_dummy_timestamps args) (arg_use_infiniband args) initial)
    as (h' & _ & Hr).
  fold r in Hr. unfold serve_log in Hr. cbn [events initial] in Hr.
  assert (forall l : list (Z * pyobj),
            Stop ∉ ([] ++ [Start ("tcp://" +:+
                      (if arg_use_infiniband args then find_infiniband_ip C else "*")
                      +:+ ":" +:+ arg_port args) (arg_dummy_timestamps args)])
                   ++ [Print ("Streamer started on: " +:+ bound_endpoint C
                         ("tcp://" +:+
                          (if arg_use_infiniband args then find_infiniband_ip C else "*")
                          +:+ ":" +:+ arg_port args))] ++ map feed_event l) as Hno.
  { intros l Hin. cbn in Hin.
    apply elem_of_cons in Hin as [Hin|Hin]; [discriminate|].
    apply elem_of_cons in Hin as [Hin|Hin]; [discriminate|].
    exact (not_stop_in_feeds _ Hin). }
  assert ((fst r = Returned tt /\ exists evs, events (snd r) = evs ++ [Stop])
          \/ (exists e, fst r = Raised e) /\ Stop ∉ events (snd r)) as Hcases.
  { destruct (open_path C (arg_path args)) as [data|e].
    2:{ right. rewrite Hr. cbn. split; [eauto | apply not_elem_of_nil]. }
    destruct (detect C _ _) as [det|e].
    2:{ right. rewrite Hr. cbn. split; [eauto | apply not_elem_of_nil]. }
    match type of Hr with
    | context [pump_log C det ?run ?evs0] =>
        destruct (pump_log_feeds C det run evs0) as [l Hl];
        destruct (pump_log C det run evs0) as [[[]|e] evs']
    end; cbn [fst snd] in *; subst evs'; rewrite Hr; cbn [fst snd events].
    - left. eauto.
    - right. split; [eauto|]. rewrite <- app_assoc. apply Hno. }
  split; [|split; [|split]].
  - destruct Hcases as [[Hret [evs Hevs]]|[[e He] Hstop]].
    + split; [auto|]. intros _. rewrite Hevs. apply elem_of_app. right. left.
    + split; [contradiction | congruence].
  - destruct Hcases as [[_ Hevs]|[[e He] _]]; [auto | congruence].
  - intros e He. destruct Hcases as [[Hret _]|[_ Hstop]]; [congruence | exact Hstop].
  - intros data det Hopen Hdet Hint Hpass. rewrite Hopen, Hdet in Hr.
    rewrite pump_log_passes in Hr by assumption. rewrite Hr. reflexivity.
Qed.

Lemma uninterrupted_main_returns_and_stops :
  fst (main (lab run_with_gap false None) example_args initial) = Returned tt
  ∧ Stop ∈ events (snd (main (lab run_with_gap false None) example_args initial)).
Proof.
  destruct (stop_only_when_the_loop_finishes (lab run_with_gap false None)
              example_args) as (Hiff & _ & _ & Hret).
  assert (fst (main (lab run_with_gap false None) example_args initial)
          = Returned tt) as H.
  { apply (Hret {| frames := run_with_gap |} None).
    - reflexivity.
    - reflexivity.
    - reflexivity.
    - apply Forall_forall. intros tf _. eexists. reflexivity. }
  split; [exact H | apply Hiff; exact H].
Defined.

(** The claim of C8 fails: the interrupt that arrives while the first frame
    waits in [feed] leaves [main] as [KeyboardInterrupt], and the server has
    been started but not stopped. *)
Lemma interrupt_leaves_without_stop :
  let r := main (lab run_with_gap false (Some 0%nat)) example_args initial in
  fst r = Raised KeyboardInterrupt
  ∧ events (snd r) = [Start "tcp://*:4545" false;
                      Print "Streamer started on: tcp://*:4545"].
Proof. vm_compute. split; reflexivity. Qed.

(** ** [serve_files]: the stacked source *)

(** C3.  In append mode, for a frame on which stacking succeeds, with all
    the module sources of the detector in the frame: the frame that is fed
    has the source [<detector_name>/DET/APPEND], whose [image.data] is the
    stacked array; its other sources are the sources of the frame that are
    not module sources, and no name occurs twice; the stacked array has the
    arrays of the modules along a new leading axis, in increasing order of
    the channel index read from the source names.  The name is a module
    source name with [APPEND] in the place of its last segment.  In the
    two-module scenario with images of shape (64, 64) the one source fed
    is [DET/DET/APPEND], with [image.data] of shape (2, 64, 64) and module 0
    first, though the source map lists module 1 first. *)
Theorem stacked_source_replaces_the_modules :
  (forall (C : Collaborators) (det : Detector) (tid : Z) (fr : Frame) (w : world)
          (stacked : ndarray),
      interrupt_at C = None ->
      stack_detector_data (frame_obj (modules_of det fr)) "image.data"
        = Returned stacked ->
      (forall src, src ∈ detector_sources det -> src ∈ map fst fr) ->
      append_name det ∉ detector_sources det ->
      exists h' F,
        pump_train C (Some det) (tid, fr) w
        = (Returned tt, {| heap := h'; events := events w ++ [Feed tid (PDict F)] |})
        ∧ obj_at [append_name det; "image.data"] (PDict F)
          = Some (PLeaf (LArr stacked))
        ∧ (forall k, k ∈ map fst F <->
                     k = append_name det
                     ∨ (k ∈ map fst fr ∧ k ∉ detector_sources det))
        ∧ (NoDup (map fst fr) -> NoDup (map fst F))
        ∧ exists arrays shape,
            Forall2 (module_array "image.data") (frame_obj (modules_of det fr)) arrays
            ∧ Forall (fun ca => arr_shape (snd ca) = shape) arrays
            ∧ let ordered := PySort.sorted by_channel arrays in
              ordered ≡ₚ arrays
              ∧ Sorted (fun x y => (fst x <= fst y)%nat) ordered
              ∧ arr_shape stacked = length arrays :: shape
              ∧ arr_data stacked = concat (map (fun ca => arr_data (snd ca)) ordered))
  ∧ (forall (det : Detector) (segment : string),
        has_slash segment = false ->
        replace_last_segment (detector_name det +:+ "/DET/" +:+ segment) "APPEND"
        = append_name det)
  ∧ fed (snd (serve_files (lab [(100%Z, scenario_frame)] true None)
                "/data/run" "4545" "*" "*" true false false initial))
    = [(100%Z,
        PDict [("DET/DET/APPEND",
                PDict (stacked_record "DET/DET/APPEND"
                         {| arr_shape := [2; 64; 64];
                            arr_data := repeat 0%Z (64 * 64) ++ repeat 1%Z (64 * 64) |}
                         (module_record module1 (tile 64 64 1) 10)))])].
Proof.
  split; [|split].
  - intros C det tid fr w stacked Hint Hstack Hall Hname.
    destruct (modules_of det fr) as [|sr0 rest] eqn:Hmods.
    { rewrite stack_needs_a_module in Hstack. discriminate. }
    rewrite <- Hmods in Hstack.
    destruct (pump_train_stacked C det tid fr w stacked sr0 rest Hint Hmods Hstack Hall)
      as [h' Hrun].
    exists h', (stacked_frame det fr stacked (snd sr0)).
    split; [exact Hrun|]. split; [|split; [|split]].
    + cbn [obj_at]. unfold stacked_frame.
      rewrite (dict_get_filter (fun k => k ∉ detector_sources det)) by exact Hname.
      rewrite dict_get_set_eq. unfold stacked_record. cbn [dict_get].
      rewrite bool_decide_eq_false_2 by discriminate.
      rewrite dict_get_set_eq. reflexivity.
    + intros k. unfold stacked_frame.
      rewrite (keys_filter (fun k => k ∉ detector_sources det)).
      rewrite dict_set_keys, frame_obj_keys. unfold dict_has.
      rewrite frame_obj_keys.
      destruct (bool_decide (append_name det ∈ map fst fr)) eqn:E.
      * apply bool_decide_eq_true_1 in E. split.
        -- intros [Hk Hin]. auto.
        -- intros [->|[Hin Hk]]; auto.
      * rewrite elem_of_app, list_elem_of_singleton. split.
        -- intros [Hk [Hin| ->]]; auto.
        -- intros [->|[Hin Hk]]; auto.
    + intros Hnd. unfold stacked_frame. apply filter_keys_NoDup, dict_set_NoDup.
      rewrite frame_obj_keys. exact Hnd.
    + destruct (stack_detector_data_returned _ _ _ Hstack)
        as (arrays & shape & Hmod & Hshape & ->).
      exists arrays, shape. rewrite <- Hmods.
      split; [exact Hmod|]. split; [exact Hshape|].
      cbn zeta. split; [apply PySort.sorted_perm|]. split; [|split].
      * apply (Sorted_weaken (Cmp.le by_channel)); [exact by_channel_le|].
        apply PySort.sorted_Sorted. exact by_channel_opp.
      * cbn [stack_arrays arr_shape]. rewrite length_map.
        rewrite (Permutation_length (PySort.sorted_perm by_channel arrays)).
        reflexivity.
      * cbn [stack_arrays arr_data]. rewrite map_map. reflexivity.
  - intros det segment Hseg. unfold replace_last_segment, append_name.
    change ("/DET/" +:+ segment) with ("/DET" +:+ ("/" +:+ segment)).
    rewrite <- string_app_assoc, (path_head_app _ _ Hseg).
    rewrite !string_app_assoc. reflexivity.
  - vm_compute. reflexivity.
Qed.

Lemma scenario_stacks_module_0_first :
  exists h' F,
    pump_train (lab [] true None) (Some det_DET) (100%Z, scenario_frame) initial
    = (Returned tt, {| heap := h'; events := [Feed 100%Z (PDict F)] |})
    ∧ obj_at ["DET/DET/APPEND"; "image.data"] (PDict F)
      = Some (PLeaf (LArr {| arr_shape := [2; 64; 64];
                             arr_data := repeat 0%Z (64 * 64) ++ repeat 1%Z (64 * 64) |})).
Proof.
  destruct stacked_source_replaces_the_modules as (Hgeneral & _ & _).
  destruct (Hgeneral (lab [] true None) det_DET 100%Z scenario_frame initial
              {| arr_shape := [2; 64; 64];
                 arr_data := repeat 0%Z (64 * 64) ++ repeat 1%Z (64 * 64) |})
    as (h' & F & Hrun & Hdata & _).
  - reflexivity.
  - vm_compute. reflexivity.
  - intros src Hsrc. unfold det_DET in Hsrc. cbn [detector_sources] in Hsrc.
    apply elem_of_union in Hsrc as [Hsrc|Hsrc];
      apply elem_of_singleton in Hsrc; subst src; cbn; set_solver.
  - unfold det_DET. cbn [detector_sources]. intros Hin.
    apply elem_of_union in Hin as [Hin|Hin];
      apply elem_of_singleton in Hin; discriminate.
  - exists h', F. split; [exact Hrun | exact Hdata].
Defined.

(** ** [serve_files]: what the assembly writes to *)

(** C4.  With the reader as the specification describes it (every step of
    [trains()] makes the frame and its contents afresh), the assignments and
    deletions of [serve_files] only touch the dictionaries of the train at
    hand: every object that was in the store before a turn of the loop, and
    so every object that was there before the run, is as it was, whether the
    run returns or raises.  What the reader holds is not changed: streaming
    the same data again from the store the run has left feeds the same
    frames. *)
Theorem assembly_only_writes_to_the_fresh_train
    (C : Collaborators) (path port source_glob key_glob : string)
    (append dummy infiniband : bool) (w : world) :
  let run := serve_files C path port source_glob key_glob append dummy infiniband in
  take (length (heap w)) (heap (snd (run w))) = heap w
  ∧ (forall det tf w0,
        take (length (heap w0)) (heap (snd (pump_train C det tf w0))) = heap w0)
  ∧ fed (snd (run {| heap := heap (snd (run w)); events := [] |}))
    = fed (snd (run {| heap := heap w; events := [] |})).
Proof.
  intros run. split; [|split].
  - destruct (serve_files_run C path port source_glob key_glob append dummy
                infiniband w) as (h' & Hold & Hrun).
    fold run in Hrun. rewrite Hrun. exact Hold.
  - intros det tf w0. destruct (pump_train_run C det tf w0) as (h' & Hold & Hrun).
    rewrite Hrun.
    destruct (snd tf); [exact Hold|].
    destruct (outgoing det _); [|exact Hold].
    destruct (interrupted C (events w0)); exact Hold.
  - destruct (serve_files_run C path port source_glob key_glob append dummy
                infiniband {| heap := heap (snd (run w)); events := [] |})
      as (h1 & _ & Hrun1).
    destruct (serve_files_run C path port source_glob key_glob append dummy
                infiniband {| heap := heap w; events := [] |})
      as (h2 & _ & Hrun2).
    fold run in Hrun1, Hrun2. rewrite Hrun1, Hrun2. reflexivity.
Qed.

(** ** [serve_files]: which module the other keys come from *)

(** C6, as the code has it.  The stacked source is the record of the first
    module source in the insertion order of the source map
    ([next(iter(det_data.values()))]): its keys other than [image.data] and
    its metadata other than [source] are that module's, and
    [metadata.source] is the new source name. *)
Theorem stacked_record_is_the_first_module_in_the_source_map
    (C : Collaborators) (det : Detector) (tid : Z) (fr : Frame) (w : world)
    (stacked : ndarray) (first : string * SourceRecord) (others : Frame) :
  interrupt_at C = None ->
  modules_of det fr = first :: others ->
  stack_detector_data (frame_obj (modules_of det fr)) "image.data" = Returned stacked ->
  (forall src, src ∈ detector_sources det -> src ∈ map fst fr) ->
  append_name det ∉ detector_sources det ->
  exists h' F record metadata,
    pump_train C (Some det) (tid, fr) w
    = (Returned tt, {| heap := h'; events := events w ++ [Feed tid (PDict F)] |})
    ∧ dict_get (append_name det) F = Some (PDict record)
    ∧ dict_get "image.data" record = Some (PLeaf (LArr stacked))
    ∧ (forall k, k ≠ "image.data" -> k ≠ "metadata" ->
         dict_get k record = PLeaf <$> dict_get k (rec_keys (snd first)))
    ∧ dict_get "metadata" record = Some (PDict metadata)
    ∧ dict_get "source" metadata = Some (PLeaf (LStr (append_name det)))
    ∧ (forall k, k ≠ "source" ->
         dict_get k metadata = PLeaf <$> dict_get k (rec_metadata (snd first))).
Proof.
  intros Hint Hmods Hstack Hall Hname.
  destruct (pump_train_stacked C det tid fr w stacked first others Hint Hmods Hstack Hall)
    as [h' Hrun].
  exists h', (stacked_frame det fr stacked (snd first)),
    (stacked_record (append_name det) stacked (snd first)),
    (dict_set "source" (PLeaf (LStr (append_name det)))
       (leaf_items (rec_metadata (snd first)))).
  split; [exact Hrun|]. split; [|split; [|split; [|split; [|split]]]].
  - unfold stacked_frame.
    rewrite (dict_get_filter (fun k => k ∉ detector_sources det)) by exact Hname.
    apply dict_get_set_eq.
  - unfold stacked_record. cbn [dict_get].
    rewrite bool_decide_eq_false_2 by discriminate. apply dict_get_set_eq.
  - intros k Hk1 Hk2. unfold stacked_record. cbn [dict_get].
    rewrite bool_decide_eq_false_2 by exact Hk2.
    rewrite dict_get_set_ne by congruence. apply dict_get_leaf_items.
  - unfold stacked_record. cbn [dict_get].
    rewrite bool_decide_eq_true_2 by reflexivity. reflexivity.
  - apply dict_get_set_eq.
  - intros k Hk. rewrite dict_get_set_ne by congruence. apply dict_get_leaf_items.
Qed.

Lemma first_listed_module_gives_the_stamp :
  exists h' F record metadata,
    pump_train (lab [] true None) (Some det_DET) (100%Z, stamped_1_then_0) initial
    = (Returned tt, {| heap := h'; events := [Feed 100%Z (PDict F)] |})
    ∧ dict_get "DET/DET/APPEND" F = Some (PDict record)
    ∧ dict_get "metadata" record = Some (PDict metadata)
    ∧ dict_get "timestamp" metadata = Some (PLeaf (LInt 11)).
Proof.
  destruct (stacked_record_is_the_first_module_in_the_source_map
              (lab [] true None) det_DET 100%Z stamped_1_then_0 initial
              {| arr_shape := [2; 2; 2]; arr_data := [0; 0; 0; 0; 1; 1; 1; 1]%Z |}
              (module1, module_record module1 (tile 2 2 1) 11)
              [(module0, module_record module0 (tile 2 2 0) 10)])
    as (h' & F & record & metadata & Hrun & HF & _ & _ & Hmeta & _ & Hother).
  - reflexivity.
  - vm_compute. reflexivity.
  - vm_compute. reflexivity.
  - intros src Hsrc. unfold det_DET in Hsrc. cbn [detector_sources] in Hsrc.
    apply elem_of_union in Hsrc as [Hsrc|Hsrc];
      apply elem_of_singleton in Hsrc; subst src; cbn; set_solver.
  - unfold det_DET. cbn [detector_sources]. intros Hin.
    apply elem_of_union in Hin as [Hin|Hin];
      apply elem_of_singleton in Hin; discriminate.
  - exists h', F, record, metadata.
    split; [exact Hrun|]. split; [exact HF|]. split; [exact Hmeta|].
    rewrite Hother by discriminate. reflexivity.
Defined.

(** The claim of C6 fails: the same source map in its two insertion orders
    gives two different stacked records, each with the time stamp of the
    module listed first; in the second the lowest channel is not the one
    chosen.  The stacked arrays are the same. *)
Lemma stacked_metadata_follows_insertion_order :
  let serve fr :=
    fed (snd (serve_files (lab [(100%Z, fr)] true None)
                "/data/run" "4545" "*" "*" true false false initial)) in
  stamped_1_then_0 = rev stamped_0_then_1
  ∧ map stamp_of_fed (serve stamped_0_then_1) = [Some (PLeaf (LInt 10))]
  ∧ map stamp_of_fed (serve stamped_1_then_0) = [Some (PLeaf (LInt 11))]
  ∧ map (fun p => obj_at ["DET/DET/APPEND"; "image.data"] (snd p))
        (serve stamped_0_then_1)
    = map (fun p => obj_at ["DET/DET/APPEND"; "image.data"] (snd p))
        (serve stamped_1_then_0).
Proof. vm_compute. repeat split. Qed.

(* ===================================================================== *)
(** * Further properties of the code *)
(* ===================================================================== *)

(** ** Lemmas on the loop and on the deletions *)

Definition feeds_so_far (evs : list event) : nat := length (filter is_feed evs).

Lemma feeds_so_far_snoc evs tid F :
  feeds_so_far (evs ++ [Feed tid F]) = S (feeds_so_far evs).
Proof.
  unfold feeds_so_far. rewrite filter_app, length_app.
  rewrite filter_cons_True by reflexivity. cbn. lia.
Qed.

(** The loop looks at what was done before only to count the calls of
    [feed]: from two logs with as many calls it adds the same events. *)
Lemma pump_log_same_feeds C det run evs1 evs2 :
  feeds_so_far evs1 = feeds_so_far evs2 ->
  exists l,
    pump_log C det run evs1
    = (fst (pump_log C det run evs2), evs1 ++ map feed_event l)
    ∧ snd (pump_log C det run evs2) = evs2 ++ map feed_event l.
Proof.
  revert evs1 evs2. induction run as [|tf run IH]; intros evs1 evs2 Hn.
  - exists []. cbn. rewrite !app_nil_r. split; reflexivity.
  - cbn [pump_log]. destruct (snd tf) as [|sr fr']; [apply IH; exact Hn|].
    destruct (outgoing det _) as [F|e].
    + unfold interrupted. fold (feeds_so_far evs1). fold (feeds_so_far evs2).
      rewrite Hn. destruct (bool_decide _).
      * exists []. cbn. rewrite !app_nil_r. split; reflexivity.
      * destruct (IH (evs1 ++ [Feed (fst tf) (PDict F)])
                    (evs2 ++ [Feed (fst tf) (PDict F)])) as (l & H1 & H2).
        { rewrite !feeds_so_far_snoc. congruence. }
        exists ((fst tf, PDict F) :: l). rewrite H1, H2.
        cbn [map feed_event fst snd]. rewrite <- !app_assoc. split; reflexivity.
    + exists []. cbn. rewrite !app_nil_r. split; reflexivity.
Qed.

(** Whatever ends the loop, it has fed the non-empty frames among the first
    [k] of the run, and the assembly has gone through on them. *)
Lemma pump_log_prefix C det run evs :
  exists k,
    snd (pump_log C det run evs)
    = evs ++ map feed_event (map (published det) (nonempty_frames (take k run)))
    ∧ Forall (passes det) (nonempty_frames (take k run)).
Proof.
  revert evs. induction run as [|tf run IH]; intros evs.
  - exists 0. cbn. rewrite app_nil_r. split; [reflexivity | constructor].
  - cbn [pump_log]. destruct (snd tf) as [|sr fr'] eqn:Hfr.
    + destruct (IH evs) as (k & Hevs & Hpass). exists (S k).
      cbn [take]. unfold nonempty_frames in *.
      rewrite filter_cons_False by (rewrite Hfr; intros Hc; apply Hc; reflexivity).
      split; assumption.
    + destruct (outgoing det (sr :: fr')) as [F|e] eqn:Hout.
      * destruct (interrupted C evs).
        { exists 0. cbn. rewrite app_nil_r. split; [reflexivity | constructor]. }
        destruct (IH (evs ++ [Feed (fst tf) (PDict F)])) as (k & Hevs & Hpass).
        exists (S k). cbn [take]. unfold nonempty_frames in *.
        rewrite filter_cons_True by (rewrite Hfr; discriminate).
        split.
        -- rewrite Hevs. cbn [map]. unfold published at 2. rewrite Hfr, Hout.
           unfold feed_event at 2. cbn [fst snd]. rewrite <- app_assoc. reflexivity.
        -- constructor; [|exact Hpass]. exists F. rewrite Hfr. exact Hout.
      * exists 0. cbn. rewrite app_nil_r. split; [reflexivity | constructor].
Qed.

(** The deletions raise nothing but [KeyError], and only for a key that is
    not in the dictionary. *)
Lemma delete_all_raised {V : Type} ks (d : list (string * V)) e :
  NoDup ks -> delete_all ks d = Raised e ->
  exists k, e = KeyError k ∧ k ∈ ks ∧ k ∉ map fst d.
Proof.
  intros Hnd. revert d. induction Hnd as [|k0 ks Hk0 Hnd IH]; intros d; cbn [delete_all].
  - discriminate.
  - destruct (dict_has k0 d) eqn:Hhas.
    + intros H. destruct (IH _ H) as (k & -> & Hk & Hnot).
      exists k. split; [reflexivity|]. split; [right; exact Hk|].
      assert (k ≠ k0) as Hne by (intros ->; contradiction).
      intros Hin. apply Hnot.
      assert (dict_has k (dict_remove k0 d) = true) as Hh.
      { rewrite dict_has_remove_ne by exact Hne. apply bool_decide_eq_true_2. exact Hin. }
      apply bool_decide_eq_true_1 in Hh. exact Hh.
    + intros [= <-]. exists k0. split; [reflexivity|]. split; [left|].
      apply bool_decide_eq_false_1 in Hhas. exact Hhas.
Qed.

Lemma delete_all_missing {V : Type} ks (d : list (string * V)) k :
  k ∈ ks -> k ∉ map fst d -> exists e, delete_all ks d = Raised e.
Proof.
  revert d. induction ks as [|k0 ks IH]; intros d Hin Hnot.
  - apply elem_of_nil in Hin. contradiction.
  - cbn [delete_all]. destruct (dict_has k0 d) eqn:Hh; [|eauto].
    apply elem_of_cons in Hin as [->|Hin].
    + apply bool_decide_eq_true_1 in Hh. contradiction.
    + apply IH; [exact Hin|]. unfold dict_remove. intros Hc. apply Hnot.
      apply list_elem_of_fmap in Hc as (kv & -> & Hkv).
      apply list_elem_of_filter in Hkv as [_ Hkv].
      apply list_elem_of_fmap. eauto.
Qed.

(** An assignment to a new key goes last. *)
Lemma dict_set_new {V : Type} k v (d : list (string * V)) :
  k ∉ map fst d -> dict_set k v d = d ++ [(k, v)].
Proof.
  induction d as [|[k' v'] d IH]; intros Hnot; [reflexivity|].
  cbn [dict_set]. cbn [map fst] in Hnot. rewrite not_elem_of_cons in Hnot.
  destruct Hnot as [Hne Hnot].
  rewrite bool_decide_eq_false_2 by exact Hne. rewrite IH by exact Hnot. reflexivity.
Qed.

(** ** [serve_files]: the calls on the server *)

(** X1.  In every run of [serve_files] the server is used in one way: either
    the run fails before the server exists (the reader or a detector class
    raised) and nothing at all is done, or the server is started once, the
    line with its endpoint is printed, then come only calls of [feed], and
    [stop()] is the last call exactly when the run returns.  The endpoint is
    [tcp://*:<port>], with the infiniband address for [*] when asked for. *)
Theorem server_is_started_once_then_only_fed
    (C : Collaborators) (path port source_glob key_glob : string)
    (append dummy infiniband : bool) :
  let r := serve_files C path port source_glob key_glob append dummy infiniband
             initial in
  let endpoint :=
    "tcp://" +:+ (if infiniband then find_infiniband_ip C else "*") +:+ ":" +:+ port in
  (events (snd r) = []
   ∧ exists e, fst r = Raised e
               ∧ (open_path C path = Raised e
                  ∨ exists data, open_path C path = Returned data
                                 ∧ detect C append (select source_glob key_glob data)
                                   = Raised e))
  ∨ exists l : list (Z * pyobj),
      events (snd r)
      = Start endpoint dummy
        :: Print ("Streamer started on: " +:+ bound_endpoint C endpoint)
        :: map feed_event l
           ++ match fst r with Returned _ => [Stop] | Raised _ => [] end.
Proof.
  intros r endpoint.
  destruct (serve_files_run C path port source_glob key_glob append dummy
              infiniband initial) as (h' & _ & Hr).
  fold r in Hr. unfold serve_log in Hr. cbn [events initial] in Hr.
  destruct (open_path C path) as [data|e].
  2:{ left. rewrite Hr. cbn. split; [reflexivity|]. exists e. auto. }
  destruct (detect C append (select source_glob key_glob data)) as [det|e]
    eqn:Hdet.
  2:{ left. rewrite Hr. cbn. split; [reflexivity|]. exists e. split; [reflexivity|].
      right. exists data. auto. }
  right. fold endpoint in Hr.
  match type of Hr with
  | context [pump_log C det ?run ?evs0] =>
      destruct (pump_log_feeds C det run evs0) as [l Hl];
      destruct (pump_log C det run evs0) as [[[]|e] evs']
  end; cbn [fst snd] in *; subst evs'; exists l; rewrite Hr; cbn [fst snd events].
  - rewrite <- !app_assoc. reflexivity.
  - rewrite app_nil_r, <- !app_assoc. reflexivity.
Qed.

(** X2.  Whatever ends a run of [serve_files] (the last train, an exception
    in the assembly, an interrupt), the frames that have been fed are the
    non-empty frames among the first [k] frames of the selected data, for
    some [k], each as the assembly left it: no frame is fed twice, out of
    turn, or when it is empty.  If the reader or a detector class raised,
    nothing has been fed. *)
Theorem fed_frames_are_an_initial_part_of_the_run
    (C : Collaborators) (path port source_glob key_glob : string)
    (append dummy infiniband : bool) :
  let r := serve_files C path port source_glob key_glob append dummy infiniband
             initial in
  match open_path C path with
  | Raised _ => fed (snd r) = []
  | Returned data =>
      let run := frames (select source_glob key_glob data) in
      match detect C append (select source_glob key_glob data) with
      | Raised _ => fed (snd r) = []
      | Returned det =>
          exists k,
            Forall (passes det) (nonempty_frames (take k run))
            ∧ fed (snd r) = map (published det) (nonempty_frames (take k run))
            ∧ sublist (map fst (fed (snd r))) (map fst (frames data))
      end
  end.
Proof.
  intros r.
  destruct (serve_files_run C path port source_glob key_glob append dummy
              infiniband initial) as (h' & _ & Hr).
  fold r in Hr. unfold serve_log in Hr. cbn [events initial] in Hr.
  destruct (open_path C path) as [data|e]; [|rewrite Hr; reflexivity].
  cbn zeta.
  destruct (detect C append (select source_glob key_glob data)) as [det|e];
    [|rewrite Hr; reflexivity].
  match type of Hr with
  | context [pump_log C det ?run ?evs0] =>
      destruct (pump_log_prefix C det run evs0) as (k & Hevs & Hpass);
      set (evs := evs0) in *
  end.
  exists k. split; [exact Hpass|].
  assert (fed (snd r)
          = map (published det)
              (nonempty_frames (take k (frames (select source_glob key_glob data)))))
    as Hfed.
  { destruct (pump_log C det _ evs) as [[[]|e] evs'];
      cbn [fst snd] in *; subst evs'; rewrite Hr; cbn [snd].
    - rewrite (fed_app _ _ h' h' h'), fed_start. cbn. apply app_nil_r.
    - rewrite fed_start. reflexivity. }
  split; [exact Hfed|].
  rewrite Hfed, published_ids, <- (select_ids source_glob key_glob data).
  apply nonempty_take_sublist.
Qed.

(** X3.  The port, [dummy_timestamps] and [use_infiniband] only reach the
    server: with a server that starts, the outcome of [serve_files] and the
    frames it hands to [feed] are the same whatever they are. *)
Theorem server_options_do_not_change_the_frames
    (C : Collaborators) (path source_glob key_glob : string) (append : bool)
    (port port' : string) (dummy dummy' infiniband infiniband' : bool) :
  let r := serve_files C path port source_glob key_glob append dummy infiniband
             initial in
  let r' := serve_files C path port' source_glob key_glob append dummy'
              infiniband' initial in
  fst r = fst r' ∧ fed (snd r) = fed (snd r').
Proof.
  intros r r'.
  destruct (serve_files_run C path port source_glob key_glob append dummy
              infiniband initial) as (h1 & _ & Hr).
  destruct (serve_files_run C path port' source_glob key_glob append dummy'
              infiniband' initial) as (h2 & _ & Hr').
  fold r in Hr. fold r' in Hr'. unfold serve_log in Hr, Hr'.
  cbn [events initial] in Hr, Hr'.
  destruct (open_path C path) as [data|e]; [|rewrite Hr, Hr'; auto].
  destruct (detect C append (select source_glob key_glob data)) as [det|e];
    [|rewrite Hr, Hr'; auto].
  match type of Hr with
  | context [pump_log C det ?run ?evs1] =>
      match type of Hr' with
      | context [pump_log C det run ?evs2] =>
          destruct (pump_log_same_feeds C det run evs1 evs2 eq_refl)
            as (l & H1 & H2);
          rewrite H1 in Hr;
          destruct (pump_log C det run evs2) as [[[]|e] evs']
      end
  end; cbn [fst snd] in *; subst evs'; rewrite Hr, Hr'; cbn [fst snd];
    (split; [reflexivity|]).
  - rewrite !(fed_app _ [Stop] _ h1 h1), !fed_start. reflexivity.
  - rewrite !fed_start. reflexivity.
Qed.

(** ** [serve_files]: a detector class that fails *)

(** A laboratory whose second detector class fails on the data for a reason
    of its own. *)
Definition lab_failing_class (run : list (Z * Frame)) : Collaborators :=
  {| fs := fs (lab run true None);
     AGIPD1M := fun _ => Raised SourceNameError;
     DSSC1M := fun _ => Raised (OtherError "ambiguous detector");
     LPD1M := fun _ => Returned det_DET;
     find_infiniband_ip := "10.0.0.1";
     bound_endpoint := fun e => e;
     interrupt_at := None |}.

(** X4.  The loop over the detector classes catches [SourceNameError] and
    nothing else: in append mode, when the first class that does not raise
    [SourceNameError] raises another exception, that exception leaves
    [serve_files], the classes after it are not tried, and the server is
    never created: nothing is started, printed or fed. *)
Theorem only_SourceNameError_is_caught
    (C : Collaborators) (path port source_glob key_glob : string)
    (dummy infiniband : bool) (data : DataCollection) (e : exn) (w : world) :
  open_path C path = Returned data ->
  e ≠ SourceNameError ->
  (let d := select source_glob key_glob data in
   AGIPD1M C d = Raised e
   ∨ (AGIPD1M C d = Raised SourceNameError ∧ DSSC1M C d = Raised e)
   ∨ (AGIPD1M C d = Raised SourceNameError ∧ DSSC1M C d = Raised SourceNameError
      ∧ LPD1M C d = Raised e)) ->
  serve_files C path port source_glob key_glob true dummy infiniband w
  = (Raised e, w).
Proof.
  intros Hopen He Hclass. cbn zeta in Hclass.
  assert (detect C true (select source_glob key_glob data) = Raised e) as Hdet.
  { unfold detect. cbn [first_detector].
    destruct Hclass as [H1|[[H1 H2]|(H1 & H2 & H3)]].
    - rewrite H1. destruct e; congruence.
    - rewrite H1, H2. destruct e; congruence.
    - rewrite H1, H2, H3. destruct e; congruence. }
  unfold serve_files. rewrite bind_run, lift_run, Hopen.
  cbn match. rewrite bind_run, lift_run, Hdet. reflexivity.
Qed.

Lemma failing_class_hides_the_class_after_it :
  LPD1M (lab_failing_class run_with_gap) {| frames := run_with_gap |}
  = Returned det_DET
  ∧ serve_files (lab_failing_class run_with_gap)
      "/data/run" "4545" "*" "*" true false false initial
    = (Raised (OtherError "ambiguous detector"), initial).
Proof.
  split; [reflexivity|].
  apply (only_SourceNameError_is_caught (lab_failing_class run_with_gap)
           "/data/run" "4545" "*" "*" false false {| frames := run_with_gap |}).
  - reflexivity.
  - discriminate.
  - right. left. split; reflexivity.
Defined.

(** ** The assembly: frames it does not get through *)

(** X5.  In append mode, when stacking succeeds on a frame from which a
    module source of the detector is missing, [del train_data[src]] raises
    [KeyError] for a module source that is not in the frame: the exception
    leaves the loop and the frame is not fed. *)
Theorem missing_module_source_raises_KeyError
    (C : Collaborators) (det : Detector) (tid : Z) (fr : Frame) (w : world)
    (stacked : ndarray) (src : string) :
  stack_detector_data (frame_obj (modules_of det fr)) "image.data"
    = Returned stacked ->
  src ∈ detector_sources det ->
  src ∉ map fst fr ->
  src ≠ append_name det ->
  exists k h',
    k ∈ detector_sources det ∧ (k ∉ map fst fr)
    ∧ pump_train C (Some det) (tid, fr) w
      = (Raised (KeyError k), {| heap := h'; events := events w |}).
Proof.
  intros Hstack Hsrc Hnot Hname.
  destruct (modules_of det fr) as [|sr0 rest] eqn:Hmods.
  { rewrite stack_needs_a_module in Hstack. discriminate. }
  rewrite <- Hmods in Hstack.
  destruct (pump_train_run C (Some det) (tid, fr) w) as (h' & _ & Hrun).
  cbn [fst snd outgoing] in Hrun.
  destruct fr as [|sr fr']; [discriminate|].
  unfold assemble in Hrun. rewrite Hstack, Hmods in Hrun.
  set (d := dict_set (append_name det) _ (frame_obj (sr :: fr'))) in Hrun.
  assert (forall k, k ∈ map fst d -> k = append_name det ∨ k ∈ map fst (sr :: fr'))
    as Hkeys.
  { intros k Hk. unfold d in Hk. rewrite dict_set_keys, frame_obj_keys in Hk.
    destruct (dict_has _ _); [auto|].
    apply elem_of_app in Hk as [Hk|Hk]; [auto|].
    apply list_elem_of_singleton in Hk. auto. }
  destruct (delete_all_missing (elements (detector_sources det)) d src)
    as [e He].
  { apply elem_of_elements. exact Hsrc. }
  { intros Hin. apply Hkeys in Hin as [Hin|Hin]; contradiction. }
  destruct (delete_all_raised _ _ _ (NoDup_elements (detector_sources det)) He)
    as (k & -> & Hk & Hkd).
  exists k, h'. split; [apply elem_of_elements; exact Hk|]. split.
  - intros Hin. apply Hkd. unfold d. apply dict_set_keeps_keys.
    rewrite frame_obj_keys. exact Hin.
  - rewrite Hrun, He. reflexivity.
Qed.

Lemma train_without_module1_raises_KeyError :
  exists h',
    pump_train (lab [] true None) (Some det_DET)
      (101%Z, [(module0, module_record module0 (tile 2 2 0) 10)]) initial
    = (Raised (KeyError module1), {| heap := h'; events := [] |}).
Proof.
  destruct (missing_module_source_raises_KeyError (lab [] true None) det_DET
              101%Z [(module0, module_record module0 (tile 2 2 0) 10)] initial
              {| arr_shape := [1; 2; 2]; arr_data := [0; 0; 0; 0]%Z |} module1)
    as (k & h' & Hk & Hnot & Hrun).
  - vm_compute. reflexivity.
  - unfold det_DET. cbn [detector_sources]. set_solver.
  - cbn. intros Hin. apply list_elem_of_singleton in Hin. discriminate.
  - discriminate.
  - exists h'. rewrite Hrun. do 3 f_equal.
    unfold det_DET in Hk. cbn [detector_sources] in Hk.
    apply elem_of_union in Hk as [Hk|Hk]; apply elem_of_singleton in Hk; subst k.
    + exfalso. apply Hnot. cbn. left.
    + reflexivity.
Defined.

(** X6.  In append mode a frame that is not empty and has no module source
    of the detector is never fed: stacking is called on no module at all,
    and if it raises, the exception leaves the loop; if it returned an
    array, [next(iter(det_data.values()))] would raise [StopIteration]. *)
Theorem frame_without_module_sources_is_not_fed
    (C : Collaborators) (det : Detector) (tid : Z) (fr : Frame) (w : world) :
  fr ≠ [] ->
  (forall sr, sr ∈ fr -> fst sr ∉ detector_sources det) ->
  exists h',
    pump_train C (Some det) (tid, fr) w
    = (match stack_detector_data [] "image.data" with
       | Raised e => Raised e
       | Returned _ => Raised StopIteration
       end,
       {| heap := h'; events := events w |}).
Proof.
  intros Hne Hnone.
  assert (modules_of det fr = []) as Hmods.
  { unfold modules_of. clear Hne. induction fr as [|sr fr' IH]; [reflexivity|].
    rewrite filter_cons_False by (apply Hnone; left).
    apply IH. intros sr' Hin. apply Hnone. right. exact Hin. }
  destruct (pump_train_run C (Some det) (tid, fr) w) as (h' & _ & Hrun).
  cbn [fst snd outgoing] in Hrun.
  destruct fr as [|sr fr']; [contradiction|].
  unfold assemble in Hrun. rewrite Hmods in Hrun. cbn [frame_obj map] in Hrun.
  exists h'. rewrite Hrun.
  destruct (stack_detector_data [] "image.data"); reflexivity.
Qed.

Lemma train_with_only_the_xgm_is_not_fed :
  exists h',
    pump_train (lab [] true None) (Some det_DET) (101%Z, xgm_only) initial
    = (Raised ShapeError, {| heap := h'; events := [] |}).
Proof.
  destruct (frame_without_module_sources_is_not_fed (lab [] true None) det_DET
              101%Z xgm_only initial) as [h' Hrun].
  - discriminate.
  - intros sr Hin. unfold xgm_only in Hin.
    apply list_elem_of_singleton in Hin. subst sr. cbn [fst].
    unfold det_DET. cbn [detector_sources]. intros Hc.
    apply elem_of_union in Hc as [Hc|Hc]; apply elem_of_singleton in Hc;
      discriminate.
  - exists h'. exact Hrun.
Defined.

(** ** The assembly: where the stacked source goes *)

Lemma frame_obj_filter (P : string -> Prop)
    (H1 : forall x : string * pyobj, Decision (P (fst x)))
    (H2 : forall x : string * SourceRecord, Decision (P (fst x))) fr :
  @filter _ _ _ (fun kv => P (fst kv)) H1 (frame_obj fr)
  = frame_obj (@filter _ _ _ (fun sr => P (fst sr)) H2 fr).
Proof.
  induction fr as [|sr fr' IH]; [reflexivity|].
  cbn [frame_obj map]. rewrite !filter_cons. cbn [fst].
  unfold frame_obj in IH.
  destruct (decide (P (fst sr))) as [Hy|Hn], (decide (P (fst sr))) as [Hy'|Hn'];
    try contradiction; cbn [frame_obj map]; rewrite IH; reflexivity.
Qed.

Lemma filter_keys {V : Type} (P : string -> Prop)
    (H1 : forall x : string * V, Decision (P (fst x)))
    (H2 : forall k, Decision (P k)) (d : list (string * V)) :
  map fst (@filter _ _ _ (fun kv => P (fst kv)) H1 d)
  = @filter _ _ _ P H2 (map fst d).
Proof.
  induction d as [|kv d IH]; [reflexivity|].
  cbn [map]. rewrite !filter_cons.
  destruct (decide (P (fst kv))) as [Hy|Hn], (decide (P (fst kv))) as [Hy'|Hn'];
    try contradiction; cbn [map]; rewrite IH; reflexivity.
Qed.

(** With a new name the stacked record is entered at the end, and the
    deletions leave it there. *)
Lemma stacked_frame_new_name det fr stacked r0 :
  (forall src, src ∈ detector_sources det -> src ∈ map fst fr) ->
  append_name det ∉ map fst fr ->
  stacked_frame det fr stacked r0
  = frame_obj (filter (fun sr => fst sr ∉ detector_sources det) fr)
    ++ [(append_name det, PDict (stacked_record (append_name det) stacked r0))].
Proof.
  intros Hall Hnew.
  unfold stacked_frame. rewrite dict_set_new by (rewrite frame_obj_keys; exact Hnew).
  rewrite filter_app.
  rewrite (filter_cons_True _ _ []) by (cbn [fst]; intros Hin; apply Hnew, Hall, Hin).
  rewrite filter_nil.
  f_equal. apply (frame_obj_filter (fun k => k ∉ detector_sources det)).
Qed.

(** X7.  In append mode, for a frame with all the module sources on which
    stacking succeeds and in which no source has the name
    [<detector_name>/DET/APPEND]: the frame that is fed is the sources of the
    frame that are not module sources, with their records as they were read
    and in the order of the frame, followed by the stacked source, which
    comes last. *)
Theorem stacked_source_comes_after_the_other_sources
    (C : Collaborators) (det : Detector) (tid : Z) (fr : Frame) (w : world)
    (stacked : ndarray) (first : string * SourceRecord) (others : Frame) :
  interrupt_at C = None ->
  modules_of det fr = first :: others ->
  stack_detector_data (frame_obj (modules_of det fr)) "image.data"
    = Returned stacked ->
  (forall src, src ∈ detector_sources det -> src ∈ map fst fr) ->
  append_name det ∉ map fst fr ->
  exists h',
    pump_train C (Some det) (tid, fr) w
    = (Returned tt,
       {| heap := h';
          events :=
            events w
            ++ [Feed tid
                  (PDict
                     (frame_obj
                        (filter (fun sr => fst sr ∉ detector_sources det) fr)
                      ++ [(append_name det,
                           PDict (stacked_record (append_name det) stacked
                                    (snd first)))]))] |}).
Proof.
  intros Hint Hmods Hstack Hall Hnew.
  destruct (pump_train_stacked C det tid fr w stacked first others Hint Hmods
              Hstack Hall) as [h' Hrun].
  exists h'. rewrite Hrun, (stacked_frame_new_name det fr stacked _ Hall Hnew).
  reflexivity.
Qed.

Lemma xgm_then_the_stacked_source :
  exists h',
    pump_train (lab [] true None) (Some det_DET)
      (100%Z, (module1, module_record module1 (tile 2 2 1) 10)
              :: xgm_only
              ++ [(module0, module_record module0 (tile 2 2 0) 10)]) initial
    = (Returned tt,
       {| heap := h';
          events :=
            [Feed 100%Z
               (PDict
                  (frame_obj xgm_only
                   ++ [("DET/DET/APPEND",
                        PDict (stacked_record "DET/DET/APPEND"
                                 {| arr_shape := [2; 2; 2];
                                    arr_data := [0; 0; 0; 0; 1; 1; 1; 1]%Z |}
                                 (module_record module1 (tile 2 2 1) 10)))]))] |}).
Proof.
  destruct (stacked_source_comes_after_the_other_sources (lab [] true None)
              det_DET 100%Z
              ((module1, module_record module1 (tile 2 2 1) 10)
               :: xgm_only
               ++ [(module0, module_record module0 (tile 2 2 0) 10)]) initial
              {| arr_shape := [2; 2; 2]; arr_data := [0; 0; 0; 0; 1; 1; 1; 1]%Z |}
              (module1, module_record module1 (tile 2 2 1) 10)
              [(module0, module_record module0 (tile 2 2 0) 10)])
    as [h' Hrun].
  - reflexivity.
  - vm_compute. reflexivity.
  - vm_compute. reflexivity.
  - intros src Hsrc. unfold det_DET in Hsrc. cbn [detector_sources] in Hsrc.
    apply elem_of_union in Hsrc as [Hsrc|Hsrc];
      apply elem_of_singleton in Hsrc; subst src; cbn; set_solver.
  - cbn. intros Hin. repeat (apply elem_of_cons in Hin as [Hin|Hin]; [discriminate|]).
    apply elem_of_nil in Hin. exact Hin.
  - exists h'. rewrite Hrun. vm_compute. reflexivity.
Defined.

(** X8.  [train_data[source_name] = mod_data] does not look at what is
    there: when the frame already has a source named
    [<detector_name>/DET/APPEND], the stacked record takes its place, at its
    position in the frame, and what was read under that name is not fed.  The
    other sources that are not module sources keep their records. *)
Theorem stacked_source_overwrites_a_source_of_its_name
    (C : Collaborators) (det : Detector) (tid : Z) (fr : Frame) (w : world)
    (stacked : ndarray) (first : string * SourceRecord) (others : Frame) :
  interrupt_at C = None ->
  modules_of det fr = first :: others ->
  stack_detector_data (frame_obj (modules_of det fr)) "image.data"
    = Returned stacked ->
  (forall src, src ∈ detector_sources det -> src ∈ map fst fr) ->
  append_name det ∈ map fst fr ->
  append_name det ∉ detector_sources det ->
  exists h' F,
    pump_train C (Some det) (tid, fr) w
    = (Returned tt, {| heap := h'; events := events w ++ [Feed tid (PDict F)] |})
    ∧ map fst F = filter (fun k => k ∉ detector_sources det) (map fst fr)
    ∧ dict_get (append_name det) F
      = Some (PDict (stacked_record (append_name det) stacked (snd first)))
    ∧ (forall k, k ∉ detector_sources det -> k ≠ append_name det ->
         dict_get k F = dict_get k (frame_obj fr)).
Proof.
  intros Hint Hmods Hstack Hall Hthere Hname.
  destruct (pump_train_stacked C det tid fr w stacked first others Hint Hmods
              Hstack Hall) as [h' Hrun].
  exists h', (stacked_frame det fr stacked (snd first)).
  split; [exact Hrun|]. unfold stacked_frame. split; [|split].
  - rewrite (filter_keys (fun k => k ∉ detector_sources det) _ _).
    rewrite dict_set_keys. unfold dict_has. rewrite frame_obj_keys.
    rewrite bool_decide_eq_true_2 by exact Hthere. reflexivity.
  - rewrite (dict_get_filter (fun k => k ∉ detector_sources det)) by exact Hname.
    apply dict_get_set_eq.
  - intros k Hk Hne.
    rewrite (dict_get_filter (fun k => k ∉ detector_sources det)) by exact Hk.
    apply dict_get_set_ne. congruence.
Qed.

(** A frame in which a source of the file has the name of the stacked
    source. *)
Definition frame_with_a_source_named_APPEND : Frame :=
  [(module0, module_record module0 (tile 2 2 0) 10);
   ("DET/DET/APPEND", module_record "DET/DET/APPEND" (tile 1 1 9) 10);
   (module1, module_record module1 (tile 2 2 1) 10)].

Lemma source_named_APPEND_is_replaced :
  exists h' F,
    pump_train (lab [] true None) (Some det_DET)
      (100%Z, frame_with_a_source_named_APPEND) initial
    = (Returned tt, {| heap := h'; events := [Feed 100%Z (PDict F)] |})
    ∧ map fst F = ["DET/DET/APPEND"]
    ∧ obj_at ["DET/DET/APPEND"; "image.data"] (PDict F)
      = Some (PLeaf (LArr {| arr_shape := [2; 2; 2];
                             arr_data := [0; 0; 0; 0; 1; 1; 1; 1]%Z |})).
Proof.
  destruct (stacked_source_overwrites_a_source_of_its_name (lab [] true None)
              det_DET 100%Z frame_with_a_source_named_APPEND initial
              {| arr_shape := [2; 2; 2]; arr_data := [0; 0; 0; 0; 1; 1; 1; 1]%Z |}
              (module0, module_record module0 (tile 2 2 0) 10)
              [(module1, module_record module1 (tile 2 2 1) 10)])
    as (h' & F & Hrun & Hkeys & Hget & _).
  - reflexivity.
  - vm_compute. reflexivity.
  - vm_compute. reflexivity.
  - intros src Hsrc. unfold det_DET in Hsrc. cbn [detector_sources] in Hsrc.
    apply elem_of_union in Hsrc as [Hsrc|Hsrc];
      apply elem_of_singleton in Hsrc; subst src; cbn; set_solver.
  - cbn. set_solver.
  - unfold det_DET. cbn [detector_sources]. intros Hin.
    apply elem_of_union in Hin as [Hin|Hin];
      apply elem_of_singleton in Hin; discriminate.
  - exists h', F. split; [exact Hrun|]. split.
    + rewrite Hkeys. vm_compute. reflexivity.
    + cbn [obj_at]. change (append_name det_DET) with "DET/DET/APPEND" in Hget.
      rewrite Hget. vm_compute. reflexivity.
Defined.

(** ** [serve_files]: a whole run in append mode *)

(** A frame the assembly gets through with a new source: stacking succeeds,
    every module source of the detector is in the frame, and the name of the
    stacked source is not taken. *)
Definition complete_for (det : Detector) (fr : Frame) : Prop :=
  (exists stacked,
      stack_detector_data (frame_obj (modules_of det fr)) "image.data"
      = Returned stacked)
  ∧ (forall src, src ∈ detector_sources det -> src ∈ map fst fr)
  ∧ append_name det ∉ map fst fr.

(** The sources that are not module sources, then the stacked source made
    from the first module source of the frame. *)
Definition with_stacked_source (det : Detector) (fr : Frame)
    : list (string * pyobj) :=
  match stack_detector_data (frame_obj (modules_of det fr)) "image.data",
        modules_of det fr with
  | Returned stacked, first :: _ =>
      frame_obj (filter (fun sr => fst sr ∉ detector_sources det) fr)
      ++ [(append_name det,
           PDict (stacked_record (append_name det) stacked (snd first)))]
  | _, _ => []
  end.

Lemma assemble_complete det fr :
  complete_for det fr -> assemble det fr = Returned (with_stacked_source det fr).
Proof.
  intros ([stacked Hstack] & Hall & Hnew).
  destruct (modules_of det fr) as [|first others] eqn:Hmods.
  { rewrite stack_needs_a_module in Hstack. discriminate. }
  rewrite <- Hmods in Hstack.
  rewrite (assemble_stacked det fr stacked first others Hmods Hstack Hall).
  unfold with_stacked_source. rewrite Hstack, Hmods.
  rewrite (stacked_frame_new_name det fr stacked _ Hall Hnew). reflexivity.
Qed.

(** X9.  A whole run in append mode: when a detector is found, nobody
    interrupts, and every frame that is not empty has all the module sources,
    stacks, and has no source named [<detector_name>/DET/APPEND], then
    [serve_files] returns, and it has fed one frame for every train that is
    not empty, in the order of the run and under its train id: the sources
    that are not module sources followed by the stacked source. *)
Theorem append_mode_feeds_every_complete_train
    (C : Collaborators) (path port source_glob key_glob : string)
    (dummy infiniband : bool) (data : DataCollection) (det : Detector) :
  open_path C path = Returned data ->
  detect C true (select source_glob key_glob data) = Returned (Some det) ->
  interrupt_at C = None ->
  Forall (fun tf => complete_for det (snd tf))
    (nonempty_frames (frames (select source_glob key_glob data))) ->
  let r := serve_files C path port source_glob key_glob true dummy infiniband
             initial in
  fst r = Returned tt
  ∧ fed (snd r)
    = map (fun tf => (fst tf, PDict (with_stacked_source det (snd tf))))
        (nonempty_frames (frames (select source_glob key_glob data))).
Proof.
  intros Hopen Hdet Hint Hcomplete r.
  destruct (serve_files_run C path port source_glob key_glob true dummy
              infiniband initial) as (h' & _ & Hr).
  fold r in Hr. unfold serve_log in Hr. rewrite Hopen, Hdet in Hr.
  cbn [events initial] in Hr.
  rewrite pump_log_passes in Hr; [|exact Hint|].
  2:{ eapply Forall_impl; [exact Hcomplete|]. intros tf Htf.
      exists (with_stacked_source det (snd tf)). apply assemble_complete, Htf. }
  rewrite Hr. cbn [fst snd]. split; [reflexivity|].
  rewrite (fed_app _ _ h' h' h'), fed_start. cbn [fed events omap list_omap app].
  rewrite app_nil_r. apply Forall_fmap_ext_1.
  eapply Forall_impl; [exact Hcomplete|]. intros tf Htf.
  unfold published. cbn [outgoing]. rewrite (assemble_complete det _ Htf).
  reflexivity.
Qed.

Lemma run_with_gap_is_fed_stacked :
  let r := serve_files (lab run_with_gap true None)
             "/data/run" "4545" "DET*" "*" true false false initial in
  fst r = Returned tt
  ∧ map fst (fed (snd r)) = [100%Z; 102%Z]
  ∧ map (fun p => obj_at ["DET/DET/APPEND"; "image.data"] (snd p)) (fed (snd r))
    = [Some (PLeaf (LArr {| arr_shape := [2; 2; 2];
                            arr_data := [0; 0; 0; 0; 1; 1; 1; 1]%Z |}));
       Some (PLeaf (LArr {| arr_shape := [2; 2; 2];
                            arr_data := [0; 0; 0; 0; 1; 1; 1; 1]%Z |}))].
Proof.
  assert (complete_for det_DET both_modules) as Hboth.
  { split; [eexists; vm_compute; reflexivity|]. split.
    - intros src Hsrc. unfold det_DET in Hsrc. cbn [detector_sources] in Hsrc.
      apply elem_of_union in Hsrc as [Hsrc|Hsrc];
        apply elem_of_singleton in Hsrc; subst src; cbn; set_solver.
    - cbn. intros Hin.
      repeat (apply elem_of_cons in Hin as [Hin|Hin]; [discriminate|]).
      apply elem_of_nil in Hin. exact Hin. }
  destruct (append_mode_feeds_every_complete_train (lab run_with_gap true None)
              "/data/run" "4545" "DET*" "*" false false {| frames := run_with_gap |}
              det_DET) as [Hret Hfed].
  - reflexivity.
  - reflexivity.
  - reflexivity.
  - assert (nonempty_frames
              (frames (select "DET*" "*" {| frames := run_with_gap |}))
            = [(100%Z, both_modules); (102%Z, both_modules)]) as ->
      by (vm_compute; reflexivity).
    constructor; [exact Hboth|]. constructor; [exact Hboth|]. constructor.
  - cbn zeta. split; [exact Hret|]. rewrite Hfed. vm_compute. split; reflexivity.
Defined.

(** ** [hdf5_datasets]: how many rows are written *)

Definition is_dataset (obj : h5object) : Prop :=
  match obj with
  | Dataset _ _ => True
  | _ => False
  end.

#[global] Instance is_dataset_dec obj : Decision (is_dataset obj).
Proof. destruct obj; cbn; apply _. Defined.

Lemma dataset_rows_length (visits : list visit) :
  length (dataset_rows (map handed visits))
  = length (filter (fun v : visit => is_dataset (snd v)) visits).
Proof.
  induction visits as [|[[path a] obj] visits IH]; [reflexivity|].
  cbn [map handed fst snd]. rewrite filter_cons. cbn [snd].
  destruct obj; cbn [dataset_rows omap list_omap fst snd] in *;
    destruct (decide _) as [Hd|Hd]; cbn in Hd; try contradiction;
    cbn [length]; rewrite <- IH; reflexivity.
Qed.

(** A file whose one dataset has three hard links. *)
Definition linked_thrice : file :=
  [Group [("x", Hard 2); ("y", Hard 2); ("g", Hard 1)];
   Group [("z", Hard 2)];
   Dataset [3%N] "<f4"].

(** X10.  For a group that has several hard links or is not below itself,
    [hdf5_datasets] writes the header and then as many rows as there are
    datasets below the group through hard links: one for a dataset however
    many links lead to it, none for a group or a named datatype.  Every row
    has the three fields path, shape and dtype, and only the header is
    written exactly when there is no dataset below the group. *)
Theorem hdf5_datasets_writes_one_row_per_dataset
    (f : file) (grp : nat) (links : list (string * link)) (datasets : list nat) :
  f !! grp = Some (Group links) ->
  1 < link_count f grp ∨ ¬ below f grp grp ->
  NoDup datasets ->
  (forall a, a ∈ datasets <->
             below f grp a
             ∧ exists shape dtype_str, f !! a = Some (Dataset shape dtype_str)) ->
  exists out,
    hdf5_datasets f grp = Some out
    ∧ length out = S (length datasets)
    ∧ Forall (fun fields => length fields = 3) out
    ∧ (datasets = [] <-> out = [header]).
Proof.
  intros Hgrp Hok Hnd Hds.
  destruct (walked_ok f grp links Hgrp Hok) as (visits & Hrun & Hndv & Hcover & Hpath).
  set (rows := PySort.sorted row_compare (dataset_rows (map handed visits))).
  exists (header :: map csv_fields rows).
  assert (length rows = length datasets) as Hlen.
  { unfold rows.
    rewrite (Permutation_length (PySort.sorted_perm row_compare _)).
    rewrite dataset_rows_length.
    rewrite <- (length_map addr_of).
    apply Permutation_length, NoDup_Permutation; [|exact Hnd|].
    - refine (sublist_NoDup _ (map addr_of visits) Hndv _).
      apply (fmap_sublist addr_of), sublist_filter.
    - intros a. rewrite Hds, list_elem_of_fmap. split.
      + intros ([[path a'] obj] & -> & Hin).
        apply list_elem_of_filter in Hin as [Hd Hin]. cbn [addr_of fst snd] in *.
        destruct (Hpath path a' obj Hin) as [Hobj Hres].
        split; [exists path; exact Hres|].
        destruct obj; cbn in Hd; try contradiction. eauto.
      + intros [Hbelow (shape & dtype_str & Ha)].
        assert (a ≠ grp) as Hne by (intros ->; congruence).
        pose proof (proj2 (Hcover a) (conj Hbelow Hne)) as Hin.
        apply list_elem_of_fmap in Hin as ([[path a'] obj] & Heq & Hin).
        cbn in Heq. subst a'.
        exists (path, a, obj). split; [reflexivity|].
        apply list_elem_of_filter. split; [|exact Hin]. cbn [snd].
        destruct (Hpath path a obj Hin) as [Hobj _].
        rewrite Ha in Hobj. injection Hobj as <-. exact I. }
  split; [|split; [|split]].
  - unfold hdf5_datasets, visititems. rewrite Hrun. cbn [fmap option_fmap option_map].
    unfold hdf5_datasets_visited. rewrite visitor_collects. reflexivity.
  - cbn [length]. rewrite length_map, Hlen. reflexivity.
  - constructor; [reflexivity|].
    apply Forall_forall. intros fields Hin.
    apply list_elem_of_fmap in Hin as (r & -> & _). reflexivity.
  - split.
    + intros ->. cbn [length] in Hlen.
      destruct rows; [reflexivity | discriminate].
    + intros Hone. destruct datasets; [reflexivity|].
      destruct rows; [discriminate Hlen | discriminate Hone].
Qed.

Lemma dataset_with_three_links_has_one_row :
  hdf5_datasets linked_thrice 0
  = Some [["path"; "shape"; "dtype"]; ["g/z"; "(3,)"; "<f4"]]
  ∧ exists out, hdf5_datasets linked_thrice 0 = Some out ∧ length out = 2.
Proof.
  split; [vm_compute; reflexivity|].
  destruct (hdf5_datasets_writes_one_row_per_dataset linked_thrice 0
              [("x", Hard 2); ("y", Hard 2); ("g", Hard 1)] [2])
    as (out & Hout & Hlen & _).
  - reflexivity.
  - right. apply unlinked_not_below. reflexivity.
  - repeat constructor. set_solver.
  - intros a. rewrite list_elem_of_singleton. split.
    + intros ->. split; [|eexists _, _; reflexivity].
      exists "x". apply resolves_member.
      exists [("x", Hard 2); ("y", Hard 2); ("g", Hard 1)].
      split; [reflexivity|]. split; [set_solver | eexists; reflexivity].
    + intros [_ (shape & dtype_str & Ha)].
      destruct a as [|[|[|a]]]; try discriminate; reflexivity.
  - exists out. split; [exact Hout | exact Hlen].
Defined.
